(** * Rendering of the control-plane static pod configuration files

    A shallow embedding of [RenderConfigsStaticPodController] (package
    [k8s] of the controllers): the five converters
    [admissionControlConfig], [auditPolicyConfig],
    [structuredAuthenticationConfig], [structuredAuthorizationConfig] and
    [schedulerConfig], and the body of the reconciliation loop [Run].

    The controller talks to four collaborators that live outside the
    repository: the resource store (COSI runtime), the operating system
    ([os], [path/filepath], [fmt]), the Kubernetes unstructured converter
    ([k8s.io/apimachinery/pkg/runtime]) and two encoders ([encoding/json]
    and the Kubernetes YAML serializer).  The first three are modelled by
    small executable definitions, each documented where it is introduced;
    the encoders and the constants of [pkg/machinery/constants] are
    parameters of the development. *)

From Stdlib Require Import ZArith NArith String List Bool.
From Stdlib Require Import DecimalString DecimalN.
From stdpp Require Import base option list strings gmap.

Set Warnings "-register-all".
Local Open Scope string_scope.
Local Open Scope Z_scope.
Local Open Scope list_scope.

(** ** Errors *)

(** Components of an absolute, clean path: [/system/config] is
    [["system"; "config"]]. *)
Abbreviation path := (list string).

Inductive errno : Type := ENOENT | ENOTDIR | EISDIR.

(** Go [error] values.  [Errorf format args cause] stands for
    [fmt.Errorf(format, args..., cause)] where the last verb of [format]
    is [%w]; the message is kept symbolic. *)
Inductive error : Type :=
| ErrNotFound
| ErrStore (msg : string)
| ErrConvert (msg : string)
| ErrStrictDecoding (unknownFields : list string)
| ErrEncode (msg : string)
| ErrPath (op : string) (p : path) (e : errno)
| Errorf (format : string) (args : list string) (cause : error).

(** A Go result pair [(A, error)]. *)
Inductive Result (A : Type) : Type :=
| Err (e : error)
| Ok (a : A).
Arguments Err {A} e.
Arguments Ok {A} a.

#[global] Instance Result_ret : MRet Result := λ A a, Ok a.
#[global] Instance Result_bind : MBind Result := λ A B f r,
  match r with
  | Err e => Err e
  | Ok a => f a
  end.

(** ** Generic payloads: the values of a Go [map[string]any] *)

Inductive value : Type :=
| VNull
| VBool (b : bool)
| VInt (n : Z)
| VStr (s : string)
| VSlice (l : list value)
| VMap (m : list (string * value)).

(** A [map[string]any]; keys are unique in a well-formed payload, and the
    nil map is the empty list. *)
Abbreviation Payload := (list (string * value)).

Fixpoint MapIndex (key : string) (m : Payload) : option value :=
  match m with
  | [] => None
  | (k, v) :: m' => if String.eqb k key then Some v else MapIndex key m'
  end.

(** A Go slice: [None] is the nil slice, [Some []] the empty one. *)
Definition slice (A : Type) : Type := option (list A).

Definition append {A : Type} (s : slice A) (x : A) : slice A :=
  match s with
  | None => Some [x]
  | Some l => Some (l ++ [x])
  end.

Definition elems {A : Type} (s : slice A) : list A :=
  match s with
  | None => []
  | Some l => l
  end.

Abbreviation bytes := (list Byte.byte).

(** ** The unstructured converter

    Model of [runtime.DefaultUnstructuredConverter] of
    [k8s.io/apimachinery].  The library walks the destination type by
    reflection; here a destination type is given by its decoder.  A
    decoder receives the [returnUnknownFields] flag and the source value
    and yields the decoded value together with the unknown-field errors
    recorded below it.  A source that is absent or nil decodes to the zero
    value of the destination. *)

Definition Decoder (A : Type) : Type := bool → value → Result (A * list string).

Definition stringFromUnstructured : Decoder string := λ _ sv,
  match sv with
  | VNull => Ok (EmptyString, [])
  | VStr s => Ok (s, [])
  | _ => Err (ErrConvert "cannot convert to string")
  end.

Definition boolFromUnstructured : Decoder bool := λ _ sv,
  match sv with
  | VNull => Ok (false, [])
  | VBool b => Ok (b, [])
  | _ => Err (ErrConvert "cannot convert to bool")
  end.

Definition intFromUnstructured : Decoder Z := λ _ sv,
  match sv with
  | VNull => Ok (0, [])
  | VInt n => Ok (n, [])
  | _ => Err (ErrConvert "cannot convert to int")
  end.

(** Destination of kind interface, and destinations whose own structure
    is not followed here: the source value is stored as it is. *)
Definition interfaceFromUnstructured : Decoder value := λ _ sv, Ok (sv, []).

Fixpoint elemsFromUnstructured {A : Type} (d : Decoder A) (strict : bool)
    (l : list value) : Result (list A * list string) :=
  match l with
  | [] => Ok ([], [])
  | sv :: l' =>
      '(a, u1) ← d strict sv;
      '(rest, u2) ← elemsFromUnstructured d strict l';
      Ok (a :: rest, u1 ++ u2)
  end.

Definition sliceFromUnstructured {A : Type} (d : Decoder A) : Decoder (slice A) :=
  λ strict sv,
  match sv with
  | VNull => Ok (None, [])
  | VSlice l => '(dl, u) ← elemsFromUnstructured d strict l; Ok (Some dl, u)
  | _ => Err (ErrConvert "cannot restore slice from")
  end.

Definition pointerFromUnstructured {A : Type} (d : Decoder A) : Decoder (option A) :=
  λ strict sv,
  match sv with
  | VNull => Ok (None, [])
  | _ => '(a, u) ← d strict sv; Ok (Some a, u)
  end.

(** The fields of a destination struct, read from one source map.  The
    result carries the keys matched so far and the unknown-field errors of
    the nested values. *)
Definition Fields (A : Type) : Type :=
  bool → Payload → Result (A * (list string * list string)).

#[global] Instance Fields_ret : MRet Fields := λ A a _ _, Ok (a, ([], [])).
#[global] Instance Fields_bind : MBind Fields := λ A B f m strict sv,
  match m strict sv with
  | Err e => Err e
  | Ok (a, (k1, u1)) =>
      match f a strict sv with
      | Err e => Err e
      | Ok (b, (k2, u2)) => Ok (b, (k1 ++ k2, u1 ++ u2))
      end
  end.

(** A field with a JSON name: the key is recorded as matched, and a
    missing key leaves the field at its zero value. *)
Definition named {A : Type} (key : string) (d : Decoder A) : Fields A :=
  λ strict sv,
  match d strict (default VNull (MapIndex key sv)) with
  | Err e => Err e
  | Ok (a, u) => Ok (a, ([key], u))
  end.

(** An embedded field tagged [json:",inline"]: its fields are read from
    the same map and share the matched keys of the enclosing struct. *)
Definition inlined {A : Type} (fs : Fields A) : Fields A := fs.

Definition unmatched (matched : list string) (sv : Payload) : list string :=
  filter (λ k, k ∉ matched) (map fst sv).

Definition structFromUnstructured {A : Type} (fs : Fields A) : Decoder A :=
  λ strict sv,
  match sv with
  | VNull => '(a, _) ← fs strict []; Ok (a, [])
  | VMap m =>
      '(a, (matched, u)) ← fs strict m;
      Ok (a, u ++ (if strict then unmatched matched m else []))
  | _ => Err (ErrConvert "cannot restore struct from")
  end.

Definition FromUnstructuredWithValidation {A : Type} (u : Payload) (obj : Decoder A)
    (returnUnknownFields : bool) : Result A :=
  '(a, unknownFieldErrors) ← obj returnUnknownFields (VMap u);
  if returnUnknownFields && negb (bool_decide (unknownFieldErrors = []))
  then Err (ErrStrictDecoding unknownFieldErrors)
  else Ok a.

(** ** Target documents

    The Kubernetes configuration types the converters build.  Their
    declarations belong to the Kubernetes libraries; they are given here
    field by field, with the JSON name of each field in the decoder next
    to the record.  A field whose Go type is a struct that plays no role
    in the controller is kept as the source value it was decoded from. *)

Definition opaqueStructFromUnstructured : Decoder value := λ _ sv,
  match sv with
  | VNull => Ok (VNull, [])
  | VMap m => Ok (VMap m, [])
  | _ => Err (ErrConvert "cannot restore struct from")
  end.

Module TypeMeta.
Record t : Type := { Kind : string; APIVersion : string }.
Definition zero : t := {| Kind := EmptyString; APIVersion := EmptyString |}.
Definition setKind (k : string) (tm : t) : t :=
  {| Kind := k; APIVersion := APIVersion tm |}.
Definition setAPIVersion (v : string) (tm : t) : t :=
  {| Kind := Kind tm; APIVersion := v |}.
Definition fields : Fields t :=
  kind ← named "kind" stringFromUnstructured;
  apiVersion ← named "apiVersion" stringFromUnstructured;
  mret {| Kind := kind; APIVersion := apiVersion |}.
End TypeMeta.

(** [runtime.Unknown]: only the raw bytes are ever set by the controller. *)
Module Unknown.
Record t : Type := { Raw : bytes }.
End Unknown.

Module AdmissionPluginConfiguration.
Record t : Type := {
  Name : string;
  Path : string;
  Configuration : option Unknown.t
}.
End AdmissionPluginConfiguration.

Module AdmissionConfiguration.
Record t : Type := {
  TypeMeta : TypeMeta.t;
  Plugins : slice AdmissionPluginConfiguration.t
}.
Definition zero : t := {| TypeMeta := TypeMeta.zero; Plugins := None |}.
Definition withTypeMeta (f : TypeMeta.t → TypeMeta.t) (cfg : t) : t :=
  {| TypeMeta := f (TypeMeta cfg); Plugins := Plugins cfg |}.
Definition setPlugins (ps : slice AdmissionPluginConfiguration.t) (cfg : t) : t :=
  {| TypeMeta := TypeMeta cfg; Plugins := ps |}.
End AdmissionConfiguration.

(** [auditv1.Policy] *)
Module Policy.
Record t : Type := {
  TypeMeta : TypeMeta.t;
  ObjectMeta : value;
  Rules : slice value;
  OmitStages : slice string;
  OmitManagedFields : bool
}.
Definition fields : Fields t :=
  tm ← inlined TypeMeta.fields;
  metadata ← named "metadata" opaqueStructFromUnstructured;
  rules ← named "rules" (sliceFromUnstructured opaqueStructFromUnstructured);
  omitStages ← named "omitStages" (sliceFromUnstructured stringFromUnstructured);
  omitManagedFields ← named "omitManagedFields" boolFromUnstructured;
  mret {| TypeMeta := tm; ObjectMeta := metadata; Rules := rules;
          OmitStages := omitStages; OmitManagedFields := omitManagedFields |}.
End Policy.

(** [apiserverv1beta1.AuthenticationConfiguration] *)
Module AuthenticationConfiguration.
Record t : Type := {
  TypeMeta : TypeMeta.t;
  JWT : slice value;
  Anonymous : option value
}.
Definition withTypeMeta (f : TypeMeta.t → TypeMeta.t) (cfg : t) : t :=
  {| TypeMeta := f (TypeMeta cfg); JWT := JWT cfg; Anonymous := Anonymous cfg |}.
Definition fields : Fields t :=
  tm ← inlined TypeMeta.fields;
  jwt ← named "jwt" (sliceFromUnstructured opaqueStructFromUnstructured);
  anonymous ← named "anonymous" (pointerFromUnstructured opaqueStructFromUnstructured);
  mret {| TypeMeta := tm; JWT := jwt; Anonymous := anonymous |}.
End AuthenticationConfiguration.

(** [apiserverv1beta1.AuthorizationConfiguration] *)
Module AuthorizationConfiguration.
Record t : Type := {
  TypeMeta : TypeMeta.t;
  Authorizers : slice value
}.
Definition withTypeMeta (f : TypeMeta.t → TypeMeta.t) (cfg : t) : t :=
  {| TypeMeta := f (TypeMeta cfg); Authorizers := Authorizers cfg |}.
Definition fields : Fields t :=
  tm ← inlined TypeMeta.fields;
  authorizers ← named "authorizers" (sliceFromUnstructured opaqueStructFromUnstructured);
  mret {| TypeMeta := tm; Authorizers := authorizers |}.
End AuthorizationConfiguration.

(** [componentbaseconfigv1alpha1.ClientConnectionConfiguration]; the
    rate [QPS] is kept as an integer. *)
Module ClientConnectionConfiguration.
Record t : Type := {
  Kubeconfig : string;
  AcceptContentTypes : string;
  ContentType : string;
  QPS : Z;
  Burst : Z
}.
Definition setKubeconfig (p : string) (c : t) : t :=
  {| Kubeconfig := p; AcceptContentTypes := AcceptContentTypes c;
     ContentType := ContentType c; QPS := QPS c; Burst := Burst c |}.
Definition fields : Fields t :=
  kubeconfig ← named "kubeconfig" stringFromUnstructured;
  acceptContentTypes ← named "acceptContentTypes" stringFromUnstructured;
  contentType ← named "contentType" stringFromUnstructured;
  qps ← named "qps" intFromUnstructured;
  burst ← named "burst" intFromUnstructured;
  mret {| Kubeconfig := kubeconfig; AcceptContentTypes := acceptContentTypes;
          ContentType := contentType; QPS := qps; Burst := burst |}.
End ClientConnectionConfiguration.

(** [componentbaseconfigv1alpha1.DebuggingConfiguration], embedded inline
    in the scheduler configuration. *)
Module DebuggingConfiguration.
Record t : Type := {
  EnableProfiling : option bool;
  EnableContentionProfiling : option bool
}.
Definition fields : Fields t :=
  enableProfiling ← named "enableProfiling" (pointerFromUnstructured boolFromUnstructured);
  enableContentionProfiling ←
    named "enableContentionProfiling" (pointerFromUnstructured boolFromUnstructured);
  mret {| EnableProfiling := enableProfiling;
          EnableContentionProfiling := enableContentionProfiling |}.
End DebuggingConfiguration.

(** [schedulerv1.KubeSchedulerConfiguration] *)
Module KubeSchedulerConfiguration.
Record t : Type := {
  TypeMeta : TypeMeta.t;
  Parallelism : option Z;
  LeaderElection : value;
  ClientConnection : ClientConnectionConfiguration.t;
  DebuggingConfiguration : DebuggingConfiguration.t;
  PercentageOfNodesToScore : option Z;
  PodInitialBackoffSeconds : option Z;
  PodMaxBackoffSeconds : option Z;
  Profiles : slice value;
  Extenders : slice value;
  DelayCacheUntilActive : bool
}.
Definition withTypeMeta (f : TypeMeta.t → TypeMeta.t) (cfg : t) : t :=
  {| TypeMeta := f (TypeMeta cfg); Parallelism := Parallelism cfg;
     LeaderElection := LeaderElection cfg; ClientConnection := ClientConnection cfg;
     DebuggingConfiguration := DebuggingConfiguration cfg;
     PercentageOfNodesToScore := PercentageOfNodesToScore cfg;
     PodInitialBackoffSeconds := PodInitialBackoffSeconds cfg;
     PodMaxBackoffSeconds := PodMaxBackoffSeconds cfg;
     Profiles := Profiles cfg; Extenders := Extenders cfg;
     DelayCacheUntilActive := DelayCacheUntilActive cfg |}.
Definition withClientConnection
    (f : ClientConnectionConfiguration.t → ClientConnectionConfiguration.t) (cfg : t) : t :=
  {| TypeMeta := TypeMeta cfg; Parallelism := Parallelism cfg;
     LeaderElection := LeaderElection cfg; ClientConnection := f (ClientConnection cfg);
     DebuggingConfiguration := DebuggingConfiguration cfg;
     PercentageOfNodesToScore := PercentageOfNodesToScore cfg;
     PodInitialBackoffSeconds := PodInitialBackoffSeconds cfg;
     PodMaxBackoffSeconds := PodMaxBackoffSeconds cfg;
     Profiles := Profiles cfg; Extenders := Extenders cfg;
     DelayCacheUntilActive := DelayCacheUntilActive cfg |}.
Definition fields : Fields t :=
  tm ← inlined TypeMeta.fields;
  parallelism ← named "parallelism" (pointerFromUnstructured intFromUnstructured);
  leaderElection ← named "leaderElection" opaqueStructFromUnstructured;
  clientConnection ←
    named "clientConnection" (structFromUnstructured ClientConnectionConfiguration.fields);
  debugging ← inlined DebuggingConfiguration.fields;
  percentageOfNodesToScore ←
    named "percentageOfNodesToScore" (pointerFromUnstructured intFromUnstructured);
  podInitialBackoffSeconds ←
    named "podInitialBackoffSeconds" (pointerFromUnstructured intFromUnstructured);
  podMaxBackoffSeconds ←
    named "podMaxBackoffSeconds" (pointerFromUnstructured intFromUnstructured);
  profiles ← named "profiles" (sliceFromUnstructured opaqueStructFromUnstructured);
  extenders ← named "extenders" (sliceFromUnstructured opaqueStructFromUnstructured);
  delayCacheUntilActive ← named "delayCacheUntilActive" boolFromUnstructured;
  mret {| TypeMeta := tm; Parallelism := parallelism; LeaderElection := leaderElection;
          ClientConnection := clientConnection; DebuggingConfiguration := debugging;
          PercentageOfNodesToScore := percentageOfNodesToScore;
          PodInitialBackoffSeconds := podInitialBackoffSeconds;
          PodMaxBackoffSeconds := podMaxBackoffSeconds;
          Profiles := profiles; Extenders := extenders;
          DelayCacheUntilActive := delayCacheUntilActive |}.
End KubeSchedulerConfiguration.

(** [runtime.Object]: the documents the controller renders. *)
Inductive Object : Type :=
| AdmissionConfigurationObject (cfg : AdmissionConfiguration.t)
| PolicyObject (cfg : Policy.t)
| AuthenticationConfigurationObject (cfg : AuthenticationConfiguration.t)
| AuthorizationConfigurationObject (cfg : AuthorizationConfiguration.t)
| KubeSchedulerConfigurationObject (cfg : KubeSchedulerConfiguration.t).

Definition GetObjectKind (obj : Object) : TypeMeta.t :=
  match obj with
  | AdmissionConfigurationObject cfg => AdmissionConfiguration.TypeMeta cfg
  | PolicyObject cfg => Policy.TypeMeta cfg
  | AuthenticationConfigurationObject cfg => AuthenticationConfiguration.TypeMeta cfg
  | AuthorizationConfigurationObject cfg => AuthorizationConfiguration.TypeMeta cfg
  | KubeSchedulerConfigurationObject cfg => KubeSchedulerConfiguration.TypeMeta cfg
  end.

(** [schema.GroupVersion] and its [String] method, for
    [apiserverv1.SchemeGroupVersion]. *)
Module GroupVersion.
Record t : Type := { Group : string; Version : string }.
Definition String (gv : t) : string :=
  if String.eqb (Group gv) EmptyString then Version gv
  else Group gv +:+ "/" +:+ Version gv.
End GroupVersion.

Definition apiserverv1_SchemeGroupVersion : GroupVersion.t :=
  {| GroupVersion.Group := "apiserver.config.k8s.io"; GroupVersion.Version := "v1" |}.

(** ** Resources of package [k8s] *)

(** [resource.Version] of the resource store: an optional revision
    number, printed in decimal. *)
Module Version.
Record t : Type := { number : option N }.
Definition String (v : t) : string :=
  match number v with
  | None => "undefined"
  | Some n => NilEmpty.string_of_uint (N.to_uint n)
  end.
End Version.

Module AdmissionPluginSpec.
Record t : Type := { Name : string; Configuration : Payload }.
End AdmissionPluginSpec.

Module AdmissionControlConfigSpec.
Record t : Type := { Config : list AdmissionPluginSpec.t }.
End AdmissionControlConfigSpec.

Module AuditPolicyConfigSpec.
Record t : Type := { Config : Payload }.
End AuditPolicyConfigSpec.

Module StructuredAuthenticationConfigSpec.
Record t : Type := { Config : Payload }.
End StructuredAuthenticationConfigSpec.

Module StructuredAuthorizationConfigSpec.
Record t : Type := { Config : Payload }.
End StructuredAuthorizationConfigSpec.

Module SchedulerConfigSpec.
Record t : Type := { Config : Payload }.
End SchedulerConfigSpec.

Module ConfigStatusSpec.
Record t : Type := { Ready : bool; Version : string }.
Definition zero : t := {| Ready := false; Version := EmptyString |}.
Definition setReady (b : bool) (s : t) : t := {| Ready := b; Version := Version s |}.
Definition setVersion (v : string) (s : t) : t := {| Ready := Ready s; Version := v |}.
End ConfigStatusSpec.

(** A typed resource: its metadata (of which only the version is read)
    and its spec. *)
Record Resource (Spec : Type) : Type := {
  Metadata_Version : Version.t;
  TypedSpec : Spec
}.
Arguments Metadata_Version {Spec} r.
Arguments TypedSpec {Spec} r.

(** ** The world the controller acts on *)

(** What [safe.ReaderGetByID] answers for each of the five singleton
    identifiers, and the [ConfigStatus] resource the controller owns. *)
Record Store : Type := {
  AdmissionControlConfig : Result (Resource AdmissionControlConfigSpec.t);
  AuditPolicyConfig : Result (Resource AuditPolicyConfigSpec.t);
  StructuredAuthenticationConfig : Result (Resource StructuredAuthenticationConfigSpec.t);
  StructuredAuthorizationConfig : Result (Resource StructuredAuthorizationConfigSpec.t);
  SchedulerConfig : Result (Resource SchedulerConfigSpec.t);
  ConfigStatus : option ConfigStatusSpec.t
}.

Definition setConfigStatus (s : option ConfigStatusSpec.t) (st : Store) : Store :=
  {| AdmissionControlConfig := AdmissionControlConfig st;
     AuditPolicyConfig := AuditPolicyConfig st;
     StructuredAuthenticationConfig := StructuredAuthenticationConfig st;
     StructuredAuthorizationConfig := StructuredAuthorizationConfig st;
     SchedulerConfig := SchedulerConfig st;
     ConfigStatus := s |}.

(** A node of the file system, with its permission bits and owner. *)
Inductive node : Type :=
| Dir (perm : Z) (uid gid : Z)
| File (data : bytes) (perm : Z) (uid gid : Z).

Record World : Type := {
  store : Store;
  fs : gmap path node;
  stdout : list value;
  backoffResets : nat
}.

Definition setStore (st : Store) (w : World) : World :=
  {| store := st; fs := fs w; stdout := stdout w; backoffResets := backoffResets w |}.
Definition setFS (m : gmap path node) (w : World) : World :=
  {| store := store w; fs := m; stdout := stdout w; backoffResets := backoffResets w |}.
Definition setStdout (out : list value) (w : World) : World :=
  {| store := store w; fs := fs w; stdout := out; backoffResets := backoffResets w |}.
Definition setBackoffResets (n : nat) (w : World) : World :=
  {| store := store w; fs := fs w; stdout := stdout w; backoffResets := n |}.

(** A Go function with effects and a result pair [(A, error)]. *)
Definition IO (A : Type) : Type := World → Result A * World.

#[global] Instance IO_ret : MRet IO := λ A a w, (Ok a, w).
#[global] Instance IO_bind : MBind IO := λ A B f m w,
  match m w with
  | (Err e, w') => (Err e, w')
  | (Ok a, w') => f a w'
  end.

(** A Go function without effects, called where one with effects is
    expected. *)
Definition pure {A : Type} (r : Result A) : IO A := λ w, (r, w).

(** [state.IsNotFoundError], which looks through wrapped errors. *)
Fixpoint IsNotFoundError (err : error) : bool :=
  match err with
  | ErrNotFound => true
  | Errorf _ _ cause => IsNotFoundError cause
  | _ => false
  end.

(** [safe.ReaderGetByID] for the resource selected by [sel]. *)
Definition ReaderGetByID {R : Type} (sel : Store → Result R) : IO R :=
  λ w, (sel (store w), w).

(** [safe.WriterModify] on the [ConfigStatus] singleton: the resource is
    created from its zero spec when it does not exist yet, then changed by
    the callback. *)
Definition WriterModify (f : ConfigStatusSpec.t → Result ConfigStatusSpec.t) : IO unit :=
  λ w,
  match f (default ConfigStatusSpec.zero (ConfigStatus (store w))) with
  | Err e => (Err e, w)
  | Ok s => (Ok tt, setStore (setConfigStatus (Some s) (store w)) w)
  end.

Module filepath.
(** [filepath.Join] of a clean directory and a file name. *)
Definition Join (dir : path) (name : string) : path := dir ++ [name].
(** The string a path stands for. *)
Definition ToString (p : path) : string :=
  match p with
  | [] => "/"
  | _ => foldr (λ c s, "/" +:+ c +:+ s) EmptyString p
  end.
End filepath.

Module fmt.
Definition Println (a : value) : IO unit :=
  λ w, (Ok tt, setStdout (stdout w ++ [a]) w).
End fmt.

(** Model of the file system calls, for a process that runs as root
    (user and group 0): no call fails for lack of permission, and the
    root directory always exists. *)
Module os.

Definition isDir (m : gmap path node) (p : path) : bool :=
  match p with
  | [] => true
  | _ => match m !! p with
         | Some (Dir _ _ _) => true
         | _ => false
         end
  end.

(** [MkdirAll]: walks the path from the root and creates each missing
    directory with [perm]; fails on a component that is a file. *)
Fixpoint mkdirFrom (parent rest : path) (perm : Z) (m : gmap path node)
    : Result unit * gmap path node :=
  match rest with
  | [] => (Ok tt, m)
  | c :: rest' =>
      let d := parent ++ [c] in
      match m !! d with
      | Some (Dir _ _ _) => mkdirFrom d rest' perm m
      | Some (File _ _ _ _) => (Err (ErrPath "mkdir" d ENOTDIR), m)
      | None => mkdirFrom d rest' perm (<[d := Dir perm 0 0]> m)
      end
  end.

Definition MkdirAll (p : path) (perm : Z) : IO unit :=
  λ w, let '(r, m) := mkdirFrom [] p perm (fs w) in (r, setFS m w).

(** [WriteFile]: opens with [O_WRONLY|O_CREATE|O_TRUNC]; [perm] is used
    only when the file is created, an existing file keeps its mode and
    owner. *)
Definition WriteFile (name : path) (data : bytes) (perm : Z) : IO unit :=
  λ w,
  match fs w !! name with
  | Some (Dir _ _ _) => (Err (ErrPath "open" name EISDIR), w)
  | Some (File _ perm0 uid gid) =>
      (Ok tt, setFS (<[name := File data perm0 uid gid]> (fs w)) w)
  | None =>
      match name with
      | [] => (Err (ErrPath "open" name EISDIR), w)
      | _ =>
          if isDir (fs w) (removelast name)
          then (Ok tt, setFS (<[name := File data perm 0 0]> (fs w)) w)
          else (Err (ErrPath "open" name ENOENT), w)
      end
  end.

Definition Chown (name : path) (uid gid : Z) : IO unit :=
  λ w,
  match fs w !! name with
  | Some (Dir perm _ _) => (Ok tt, setFS (<[name := Dir perm uid gid]> (fs w)) w)
  | Some (File data perm _ _) =>
      (Ok tt, setFS (<[name := File data perm uid gid]> (fs w)) w)
  | None => (Err (ErrPath "chown" name ENOENT), w)
  end.

End os.

(** ** The body of the loop

    One pass through the [for] of [Run] either reaches the end of the
    body, leaves it by [continue], or leaves the function by [return err]. *)
Inductive Step (A : Type) : Type :=
| Next (a : A)
| Continue
| Return (err : error).
Arguments Next {A} a.
Arguments Continue {A}.
Arguments Return {A} err.

Definition Body (A : Type) : Type := World → Step A * World.

#[global] Instance Body_ret : MRet Body := λ A a w, (Next a, w).
#[global] Instance Body_bind : MBind Body := λ A B f m w,
  match m w with
  | (Next a, w') => f a w'
  | (Continue, w') => (Continue, w')
  | (Return err, w') => (Return err, w')
  end.

(** [x, err := get(); if err != nil { if state.IsNotFoundError(err)
    { continue }; return fmt.Errorf(format, err) }] *)
Definition getOrContinue {A : Type} (get : IO A) (format : string) : Body A :=
  λ w,
  match get w with
  | (Err err, w') =>
      if IsNotFoundError err then (Continue, w')
      else (Return (Errorf format [] err), w')
  | (Ok a, w') => (Next a, w')
  end.

(** [x, err := call(); if err != nil { return wrap(err) }] *)
Definition orReturn {A : Type} (call : IO A) (wrap : error → error) : Body A :=
  λ w,
  match call w with
  | (Err err, w') => (Return (wrap err), w')
  | (Ok a, w') => (Next a, w')
  end.

(** [for _, x := range l { body }] *)
Fixpoint forRange {A : Type} (l : list A) (body : A → Body unit) : Body unit :=
  match l with
  | [] => mret tt
  | x :: l' => body x ≫= λ _, forRange l' body
  end.

Definition ResetRestartBackoff : Body unit :=
  λ w, (Next tt, setBackoffResets (S (backoffResets w)) w).

Record configFile : Type := {
  filename : string;
  f : IO Object
}.

Record pod : Type := {
  name : string;
  directory : path;
  uid : Z;
  gid : Z;
  configs : list configFile
}.

(** The constants of [pkg/machinery/constants] the controller reads. *)
Record Constants : Type := {
  KubernetesAPIServerConfigDir : path;
  KubernetesAPIServerRunUser : Z;
  KubernetesAPIServerRunGroup : Z;
  KubernetesSchedulerConfigDir : path;
  KubernetesSchedulerRunUser : Z;
  KubernetesSchedulerRunGroup : Z;
  KubernetesSchedulerSecretsDir : path
}.

(** Permission bits, written in octal in the source. *)
Definition perm_0o755 : Z := 7 * 64 + 5 * 8 + 5.
Definition perm_0o400 : Z := 4 * 64.

(** ** The controller *)

Section Controller.

(** The constants, [json.Marshal] on a plugin configuration, and
    [Encode] of the strict, pretty YAML serializer built in [Run]. *)
Variable constants : Constants.
Variable json_Marshal : Payload → Result bytes.
Variable serializer_Encode : Object → Result bytes.

(** The [for _, plugin := range spec.Config] of [admissionControlConfig]. *)
Fixpoint admissionPlugins (plugins : list AdmissionPluginSpec.t)
    (cfg : AdmissionConfiguration.t) : Result AdmissionConfiguration.t :=
  match plugins with
  | [] => Ok cfg
  | plugin :: rest =>
      match json_Marshal (AdmissionPluginSpec.Configuration plugin) with
      | Err err =>
          Err (Errorf "error marshaling configuration for plugin %q: %w"
                 [AdmissionPluginSpec.Name plugin] err)
      | Ok raw =>
          admissionPlugins rest
            (AdmissionConfiguration.setPlugins
               (append (AdmissionConfiguration.Plugins cfg)
                  {| AdmissionPluginConfiguration.Name := AdmissionPluginSpec.Name plugin;
                     AdmissionPluginConfiguration.Path := EmptyString;
                     AdmissionPluginConfiguration.Configuration :=
                       Some {| Unknown.Raw := raw |} |})
               cfg)
      end
  end.

Definition admissionControlConfig (spec : AdmissionControlConfigSpec.t) : IO Object :=
  pure (
    let cfg := AdmissionConfiguration.zero in
    let cfg := AdmissionConfiguration.withTypeMeta
                 (TypeMeta.setAPIVersion (GroupVersion.String apiserverv1_SchemeGroupVersion)) cfg in
    let cfg := AdmissionConfiguration.withTypeMeta
                 (TypeMeta.setKind "AdmissionConfiguration") cfg in
    let cfg := AdmissionConfiguration.setPlugins (Some []) cfg in
    cfg ← admissionPlugins (AdmissionControlConfigSpec.Config spec) cfg;
    Ok (AdmissionConfigurationObject cfg)).

Definition auditPolicyConfig (spec : AuditPolicyConfigSpec.t) : IO Object :=
  pure (
    match FromUnstructuredWithValidation (AuditPolicyConfigSpec.Config spec)
            (structFromUnstructured Policy.fields) true with
    | Err err => Err (Errorf "error unmarshaling audit policy configuration: %w" [] err)
    | Ok cfg => Ok (PolicyObject cfg)
    end).

Definition structuredAuthenticationConfig (spec : StructuredAuthenticationConfigSpec.t)
    : IO Object :=
  fmt.Println (VMap (StructuredAuthenticationConfigSpec.Config spec)) ≫= λ _,
  pure (
    match FromUnstructuredWithValidation (StructuredAuthenticationConfigSpec.Config spec)
            (structFromUnstructured AuthenticationConfiguration.fields) true with
    | Err err =>
        Err (Errorf "error unmarshaling structured authentication configuration: %w" [] err)
    | Ok cfg =>
        let cfg := AuthenticationConfiguration.withTypeMeta
                     (TypeMeta.setAPIVersion "apiserver.config.k8s.io/v1beta1") cfg in
        let cfg := AuthenticationConfiguration.withTypeMeta
                     (TypeMeta.setKind "AuthenticationConfiguration") cfg in
        Ok (AuthenticationConfigurationObject cfg)
    end).

Definition structuredAuthorizationConfig (spec : StructuredAuthorizationConfigSpec.t)
    : IO Object :=
  pure (
    match FromUnstructuredWithValidation (StructuredAuthorizationConfigSpec.Config spec)
            (structFromUnstructured AuthorizationConfiguration.fields) true with
    | Err err =>
        Err (Errorf "error unmarshaling structured authorization configuration: %w" [] err)
    | Ok cfg =>
        let cfg := AuthorizationConfiguration.withTypeMeta
                     (TypeMeta.setAPIVersion "apiserver.config.k8s.io/v1beta1") cfg in
        let cfg := AuthorizationConfiguration.withTypeMeta
                     (TypeMeta.setKind "AuthorizationConfiguration") cfg in
        Ok (AuthorizationConfigurationObject cfg)
    end).

Definition schedulerConfig (spec : SchedulerConfigSpec.t) : IO Object :=
  pure (
    match FromUnstructuredWithValidation (SchedulerConfigSpec.Config spec)
            (structFromUnstructured KubeSchedulerConfiguration.fields) false with
    | Err err => Err (Errorf "error unmarshaling scheduler configuration: %w" [] err)
    | Ok cfg =>
        let cfg := KubeSchedulerConfiguration.withTypeMeta
                     (TypeMeta.setAPIVersion "kubescheduler.config.k8s.io/v1") cfg in
        let cfg := KubeSchedulerConfiguration.withTypeMeta
                     (TypeMeta.setKind "KubeSchedulerConfiguration") cfg in
        let cfg := KubeSchedulerConfiguration.withClientConnection
                     (ClientConnectionConfiguration.setKubeconfig
                        (filepath.ToString
                           (filepath.Join (KubernetesSchedulerSecretsDir constants)
                              "kubeconfig")))
                     cfg in
        Ok (KubeSchedulerConfigurationObject cfg)
    end).

(** The optional files of the API server, from the two pointers
    [structuredAuthNConfig] and [structuredAuthZConfig]. *)
Definition apiServerConfigs
    (structuredAuthNConfig : option StructuredAuthenticationConfigSpec.t)
    (structuredAuthZConfig : option StructuredAuthorizationConfigSpec.t)
    : list configFile :=
  let apiServerConfigs := [] in
  let apiServerConfigs :=
    match structuredAuthNConfig with
    | Some c =>
        if (0 <? length (StructuredAuthenticationConfigSpec.Config c))%nat
        then apiServerConfigs ++
               [ {| filename := "authentication-config.yaml";
                    f := structuredAuthenticationConfig c |} ]
        else apiServerConfigs
    | None => apiServerConfigs
    end in
  let apiServerConfigs :=
    match structuredAuthZConfig with
    | Some c =>
        if (0 <? length (StructuredAuthorizationConfigSpec.Config c))%nat
        then apiServerConfigs ++
               [ {| filename := "authorization-config.yaml";
                    f := structuredAuthorizationConfig c |} ]
        else apiServerConfigs
    | None => apiServerConfigs
    end in
  apiServerConfigs.

(** The two pods of the [for _, pod := range ...] of [Run]. *)
Definition apiServerPod (admissionConfig : AdmissionControlConfigSpec.t)
    (auditConfig : AuditPolicyConfigSpec.t)
    (apiServerConfigs : list configFile) : pod :=
  {| name := "kube-apiserver";
     directory := KubernetesAPIServerConfigDir constants;
     uid := KubernetesAPIServerRunUser constants;
     gid := KubernetesAPIServerRunGroup constants;
     configs :=
       [ {| filename := "admission-control-config.yaml";
            f := admissionControlConfig admissionConfig |};
         {| filename := "auditpolicy.yaml";
            f := auditPolicyConfig auditConfig |} ] ++ apiServerConfigs |}.

Definition schedulerPod (kubeSchedulerConfig : SchedulerConfigSpec.t) : pod :=
  {| name := "kube-scheduler";
     directory := KubernetesSchedulerConfigDir constants;
     uid := KubernetesSchedulerRunUser constants;
     gid := KubernetesSchedulerRunGroup constants;
     configs :=
       [ {| filename := "scheduler-config.yaml";
            f := schedulerConfig kubeSchedulerConfig |} ] |}.

Definition pods (admissionConfig : AdmissionControlConfigSpec.t)
    (auditConfig : AuditPolicyConfigSpec.t)
    (apiServerConfigs : list configFile)
    (kubeSchedulerConfig : SchedulerConfigSpec.t) : list pod :=
  [ apiServerPod admissionConfig auditConfig apiServerConfigs;
    schedulerPod kubeSchedulerConfig ].

(** The body of the inner loop: generate, encode, write, chown. *)
Definition renderConfigFile (p : pod) (configFile : configFile) : Body unit :=
  obj ← orReturn (f configFile)
           (Errorf "error generating configuration %q for %q: %w"
              [filename configFile; name p]);
  buf ← orReturn (pure (serializer_Encode obj))
           (Errorf "error marshaling configuration %q for %q: %w"
              [filename configFile; name p]);
  _ ← orReturn (os.WriteFile (filepath.Join (directory p) (filename configFile)) buf perm_0o400)
         (Errorf "error writing configuration %q for %q: %w"
            [filename configFile; name p]);
  orReturn (os.Chown (filepath.Join (directory p) (filename configFile)) (uid p) (gid p))
    (Errorf "error chowning %q for %q: %w" [filename configFile; name p]).

Definition renderPod (p : pod) : Body unit :=
  _ ← orReturn (os.MkdirAll (directory p) perm_0o755)
         (Errorf "error creating config directory for %q: %w" [name p]);
  forRange (configs p) (renderConfigFile p).

(** The body of the [for] of [Run], after the [select]. *)
Definition iteration : Body unit :=
  admissionRes ← getOrContinue (ReaderGetByID AdmissionControlConfig)
                    "error getting admission config resource: %w";
  let admissionConfig := TypedSpec admissionRes in
  auditRes ← getOrContinue (ReaderGetByID AuditPolicyConfig)
                "error getting audit config resource: %w";
  let auditConfig := TypedSpec auditRes in
  structuredAuthNRes ← getOrContinue (ReaderGetByID StructuredAuthenticationConfig)
                          "error getting structured authentication config resource: %w";
  let structuredAuthNConfig := Some (TypedSpec structuredAuthNRes) in
  structuredAuthZRes ← getOrContinue (ReaderGetByID StructuredAuthorizationConfig)
                          "error getting structured authorization config resource: %w";
  let structuredAuthZConfig := Some (TypedSpec structuredAuthZRes) in
  let apiServerConfigs := apiServerConfigs structuredAuthNConfig structuredAuthZConfig in
  kubeSchedulerRes ← getOrContinue (ReaderGetByID SchedulerConfig)
                        "error getting scheduler config resource: %w";
  let kubeSchedulerConfig := TypedSpec kubeSchedulerRes in
  _ ← forRange (pods admissionConfig auditConfig apiServerConfigs kubeSchedulerConfig)
         renderPod;
  _ ← orReturn
         (WriterModify (λ r,
            let r := ConfigStatusSpec.setReady true r in
            let r := ConfigStatusSpec.setVersion
                       (Version.String (Metadata_Version admissionRes)
                        +:+ Version.String (Metadata_Version auditRes)
                        +:+ Version.String (Metadata_Version kubeSchedulerRes)) r in
            Ok r))
         (λ err, err);
  ResetRestartBackoff.

(** What the [select] at the head of the loop receives: the context is
    done, or an event arrives after the other controllers changed the
    store. *)
Inductive signal : Type :=
| CtxDone
| Event (change : Store → Store).

(** How [Run] ends on a finite sequence of signals: it returns, or it is
    left waiting in the [select]. *)
Inductive outcome : Type :=
| Waiting
| Returned (err : option error).

Fixpoint Run (signals : list signal) (w : World) : outcome * World :=
  match signals with
  | [] => (Waiting, w)
  | CtxDone :: _ => (Returned None, w)
  | Event change :: rest =>
      match iteration (setStore (change (store w)) w) with
      | (Return err, w') => (Returned (Some err), w')
      | (_, w') => Run rest w'
      end
  end.

End Controller.

(** ** Sample inputs

    Concrete values on which the definitions above are run: the
    directories and identifiers of the Talos tree, two stand-ins for the
    encoders, and a few stores. *)

Definition talosConstants : Constants :=
  {| KubernetesAPIServerConfigDir := ["system"; "config"; "kubernetes"; "kube-apiserver"];
     KubernetesAPIServerRunUser := 65534;
     KubernetesAPIServerRunGroup := 65534;
     KubernetesSchedulerConfigDir := ["system"; "config"; "kubernetes"; "kube-scheduler"];
     KubernetesSchedulerRunUser := 65536;
     KubernetesSchedulerRunGroup := 65536;
     KubernetesSchedulerSecretsDir := ["system"; "secrets"; "kubernetes"; "kube-scheduler"] |}.

(** A compact rendering of a payload, used as the stand-in for
    [json.Marshal]. *)
Fixpoint renderValue (v : value) : string :=
  match v with
  | VNull => "null"
  | VBool true => "true"
  | VBool false => "false"
  | VInt n => NilEmpty.string_of_int (Z.to_int n)
  | VStr s => "'" +:+ s +:+ "'"
  | VSlice l =>
      "[" +:+ (fix items (l : list value) : string :=
                 match l with
                 | [] => EmptyString
                 | x :: l' => renderValue x +:+ "," +:+ items l'
                 end) l +:+ "]"
  | VMap m =>
      "{" +:+ (fix entries (m : list (string * value)) : string :=
                 match m with
                 | [] => EmptyString
                 | (k, x) :: m' => k +:+ ":" +:+ renderValue x +:+ "," +:+ entries m'
                 end) m +:+ "}"
  end.

Definition sampleMarshal (p : Payload) : Result bytes :=
  Ok (list_byte_of_string (renderValue (VMap p))).

(** The stand-in for the serializer prints the two discriminator fields. *)
Definition sampleEncode (obj : Object) : Result bytes :=
  Ok (list_byte_of_string
        ("apiVersion: " +:+ TypeMeta.APIVersion (GetObjectKind obj)
         +:+ " kind: " +:+ TypeMeta.Kind (GetObjectKind obj))).

Definition resourceAt {Spec : Type} (n : N) (spec : Spec) : Result (Resource Spec) :=
  Ok {| Metadata_Version := {| Version.number := Some n |}; TypedSpec := spec |}.

Definition samplePlugins : list AdmissionPluginSpec.t :=
  [ {| AdmissionPluginSpec.Name := "Foo";
       AdmissionPluginSpec.Configuration := [("a", VInt 1)] |};
    {| AdmissionPluginSpec.Name := "Bar";
       AdmissionPluginSpec.Configuration := [("b", VStr "x"); ("c", VNull)] |} ].

Definition sampleAuditPolicy : Payload :=
  [ ("apiVersion", VStr "audit.k8s.io/v1"); ("kind", VStr "Policy");
    ("rules", VSlice [VMap [("level", VStr "Metadata")]]) ].

Definition sampleScheduler : Payload :=
  [ ("clientConnection", VMap [("kubeconfig", VStr "/tmp/other-kubeconfig"); ("burst", VInt 10)]) ].

Definition sampleStore : Store :=
  {| AdmissionControlConfig :=
       resourceAt 3 {| AdmissionControlConfigSpec.Config := samplePlugins |};
     AuditPolicyConfig :=
       resourceAt 5 {| AuditPolicyConfigSpec.Config := sampleAuditPolicy |};
     StructuredAuthenticationConfig :=
       resourceAt 1 {| StructuredAuthenticationConfigSpec.Config := [] |};
     StructuredAuthorizationConfig :=
       resourceAt 1 {| StructuredAuthorizationConfigSpec.Config := [] |};
     SchedulerConfig :=
       resourceAt 7 {| SchedulerConfigSpec.Config := sampleScheduler |};
     ConfigStatus := None |}.

Definition worldOf (st : Store) : World :=
  {| store := st; fs := ∅; stdout := []; backoffResets := 0 |}.

Definition setAdmissionControlConfig
    (r : Result (Resource AdmissionControlConfigSpec.t)) (st : Store) : Store :=
  {| AdmissionControlConfig := r;
     AuditPolicyConfig := AuditPolicyConfig st;
     StructuredAuthenticationConfig := StructuredAuthenticationConfig st;
     StructuredAuthorizationConfig := StructuredAuthorizationConfig st;
     SchedulerConfig := SchedulerConfig st;
     ConfigStatus := ConfigStatus st |}.

Definition setAuditPolicyConfig
    (r : Result (Resource AuditPolicyConfigSpec.t)) (st : Store) : Store :=
  {| AdmissionControlConfig := AdmissionControlConfig st;
     AuditPolicyConfig := r;
     StructuredAuthenticationConfig := StructuredAuthenticationConfig st;
     StructuredAuthorizationConfig := StructuredAuthorizationConfig st;
     SchedulerConfig := SchedulerConfig st;
     ConfigStatus := ConfigStatus st |}.

Definition setStructuredAuthenticationConfig
    (r : Result (Resource StructuredAuthenticationConfigSpec.t)) (st : Store) : Store :=
  {| AdmissionControlConfig := AdmissionControlConfig st;
     AuditPolicyConfig := AuditPolicyConfig st;
     StructuredAuthenticationConfig := r;
     StructuredAuthorizationConfig := StructuredAuthorizationConfig st;
     SchedulerConfig := SchedulerConfig st;
     ConfigStatus := ConfigStatus st |}.

Definition setStructuredAuthorizationConfig
    (r : Result (Resource StructuredAuthorizationConfigSpec.t)) (st : Store) : Store :=
  {| AdmissionControlConfig := AdmissionControlConfig st;
     AuditPolicyConfig := AuditPolicyConfig st;
     StructuredAuthenticationConfig := StructuredAuthenticationConfig st;
     StructuredAuthorizationConfig := r;
     SchedulerConfig := SchedulerConfig st;
     ConfigStatus := ConfigStatus st |}.

(** The store before the structured authentication resource exists. *)
Definition storeWithoutAuthentication : Store :=
  setStructuredAuthenticationConfig (Err ErrNotFound) sampleStore.

(** The store before the structured authorization resource exists. *)
Definition storeWithoutAuthorization : Store :=
  setStructuredAuthorizationConfig (Err ErrNotFound) sampleStore.

(** An audit policy whose [rules] is a string, which the converter
    rejects. *)
Definition storeWithBadAudit : Store :=
  setAuditPolicyConfig
    (resourceAt 6 {| AuditPolicyConfigSpec.Config := [("rules", VStr "all")] |})
    sampleStore.

(** A store with both optional resources filled in. *)
Definition storeWithOptional : Store :=
  setStructuredAuthenticationConfig
    (resourceAt 2 {| StructuredAuthenticationConfigSpec.Config :=
                       [("jwt", VSlice [VMap [("issuer", VMap [("url", VStr "https://issuer")])]])] |})
    (setStructuredAuthorizationConfig
       (resourceAt 2 {| StructuredAuthorizationConfigSpec.Config :=
                          [("authorizers", VSlice [VMap [("type", VStr "Node")]])] |})
       sampleStore).

(** An admission resource with no plugin at all. *)
Definition storeWithoutPlugins : Store :=
  setAdmissionControlConfig
    (resourceAt 4 {| AdmissionControlConfigSpec.Config := [] |}) sampleStore.

(** An audit policy that leaves [apiVersion] and [kind] out, and one that
    sets them to something else. *)
Definition auditPolicyWithoutTypeMeta : AuditPolicyConfigSpec.t :=
  {| AuditPolicyConfigSpec.Config := [("rules", VSlice [VMap [("level", VStr "Metadata")]])] |}.

Definition auditPolicyWithOtherTypeMeta : AuditPolicyConfigSpec.t :=
  {| AuditPolicyConfigSpec.Config :=
       [("apiVersion", VStr "example.com/v0"); ("kind", VStr "Bogus")] |}.

(** A payload with a key no target schema knows. *)
Definition payloadWithUnknownField : Payload := [("bogusField", VInt 1)].

(** The AdmissionConfiguration with its discriminator fields and a plugin
    list that is empty but not nil. *)
Definition admissionConfigurationWithoutPlugins : Object :=
  AdmissionConfigurationObject
    {| AdmissionConfiguration.TypeMeta :=
         {| TypeMeta.Kind := "AdmissionConfiguration";
            TypeMeta.APIVersion := "apiserver.config.k8s.io/v1" |};
       AdmissionConfiguration.Plugins := Some [] |}.

(** ** Relations between the world before and after a computation *)

(** Every run of [m] relates the world it starts in to the world it ends
    in, whatever its result. *)
Definition respects {X : Type} (R : World → World → Prop) (m : World → X * World) : Prop :=
  ∀ w r w', m w = (r, w') → R w w'.

Definition sameStore (w w' : World) : Prop := store w' = store w.

Definition sameFS (w w' : World) : Prop := fs w' = fs w.

Definition sameStdout (w w' : World) : Prop := stdout w' = stdout w.

(** Only the paths in [P] may differ. *)
Definition changesWithin (P : path → Prop) (w w' : World) : Prop :=
  ∀ p, ¬ P p → fs w' !! p = fs w !! p.

(** How the mode of one path may evolve: a node that exists keeps its
    kind and mode; a node that appears is a file of mode [0o400] or a
    directory of mode [0o755]. *)
Definition modeStep (before after : option node) : Prop :=
  match before, after with
  | None, None => True
  | None, Some (File _ perm _ _) => perm = perm_0o400
  | None, Some (Dir perm _ _) => perm = perm_0o755
  | Some (File _ perm _ _), Some (File _ perm' _ _) => perm' = perm
  | Some (Dir perm _ _), Some (Dir perm' _ _) => perm' = perm
  | _, _ => False
  end.

Definition modesKept (w w' : World) : Prop :=
  ∀ p, modeStep (fs w !! p) (fs w' !! p).

(** The file at [p] holds [data]. *)
Definition holds (p : path) (data : bytes) (w : World) : Prop :=
  ∃ perm uid gid, fs w !! p = Some (File data perm uid gid).

Definition keeps (p : path) (data : bytes) (w w' : World) : Prop :=
  holds p data w → holds p data w'.

(** The version of a resource the store returns, if it returns one. *)
Definition versionOf {Spec : Type} (r : Result (Resource Spec)) : option Version.t :=
  match r with
  | Ok res => Some (Metadata_Version res)
  | Err _ => None
  end.

(** Mode masks: everything but the owner's read bit, and the bits of
    group and others. *)
Definition mask_0o377 : Z := 3 * 64 + 7 * 8 + 7.
Definition mask_0o077 : Z := 7 * 8 + 7.

(** The error of a read, if it failed. *)
Definition readError {R : Type} (r : Result R) : option error :=
  match r with
  | Err e => Some e
  | Ok _ => None
  end.

(** The five reads of [Run], in the order in which the body makes them,
    each with the format of the message it is wrapped in. *)
Definition reads (st : Store) : list (string * option error) :=
  [ ("error getting admission config resource: %w",
     readError (AdmissionControlConfig st));
    ("error getting audit config resource: %w",
     readError (AuditPolicyConfig st));
    ("error getting structured authentication config resource: %w",
     readError (StructuredAuthenticationConfig st));
    ("error getting structured authorization config resource: %w",
     readError (StructuredAuthorizationConfig st));
    ("error getting scheduler config resource: %w",
     readError (SchedulerConfig st)) ].

(** Neither the store nor the restart backoff has been touched. *)
Definition sameControl (w w' : World) : Prop :=
  store w' = store w ∧ backoffResets w' = backoffResets w.

(** The node at [q] stays what it is. *)
Definition keepsNode (q : path) (n : node) (w w' : World) : Prop :=
  fs w !! q = Some n → fs w' !! q = Some n.

(** The standard output only grows. *)
Definition stdoutGrows (w w' : World) : Prop := stdout w `prefix_of` stdout w'.

(** A world in which an earlier pass has left an authentication file
    behind, while the store now holds empty optional payloads. *)
Definition worldWithStaleFile : World :=
  snd (os.Chown
         (filepath.Join (KubernetesAPIServerConfigDir talosConstants)
            "authentication-config.yaml")
         65534 65534
         (snd (os.WriteFile
                 (filepath.Join (KubernetesAPIServerConfigDir talosConstants)
                    "authentication-config.yaml")
                 (list_byte_of_string "stale") perm_0o400
                 (snd (os.MkdirAll (KubernetesAPIServerConfigDir talosConstants) perm_0o755
                         (worldOf sampleStore)))))).

(** A [json.Marshal] that refuses the configuration of the plugin named
    [Bar] of the sample plugins. *)
Definition marshalRefusingBar (p : Payload) : Result bytes :=
  match MapIndex "b" p with
  | Some _ => Err (ErrEncode "json: unsupported value")
  | None => sampleMarshal p
  end.

(** The paths a loop over the pods [ps] can touch: the directories on the
    way to the directory of a pod, and the files of its list. *)
Definition podPaths (ps : list pod) (q : path) : Prop :=
  ∃ p, p ∈ ps ∧
    (q `prefix_of` directory p ∨
     ∃ cf, cf ∈ configs p ∧ q = filepath.Join (directory p) (filename cf)).

(** The file of [cf] in the directory of [p] holds the encoding of the
    document its converter returns, and belongs to the user and group of
    the pod. *)
Definition renderedIn (serializer_Encode : Object → Result bytes) (p : pod) (cf : configFile)
    (w : World) : Prop :=
  ∃ obj buf perm,
    (∀ w0, fst (f cf w0) = Ok obj) ∧
    serializer_Encode obj = Ok buf ∧
    fs w !! filepath.Join (directory p) (filename cf) = Some (File buf perm (uid p) (gid p)).

(** Every directory on the way to [dir], and [dir] itself, exists. *)
Definition dirsExist (dir : path) (w : World) : Prop :=
  ∀ q, q `prefix_of` dir → os.isDir (fs w) q = true.

(** A closure that is a function of its spec alone, and at most prints. *)
Definition printsAtMost (m : IO Object) : Prop :=
  ∃ res, ∀ w, ∃ out, m w = (res, setStdout out w).

(** A directory at [q] stays a directory. *)
Definition keepsDir (q : path) (w w' : World) : Prop :=
  os.isDir (fs w) q = true → os.isDir (fs w') q = true.

(** A scheduler payload whose [parallelism] is a string, which the
    converter rejects. *)
Definition schedulerWithBadParallelism : SchedulerConfigSpec.t :=
  {| SchedulerConfigSpec.Config := [("parallelism", VStr "many")] |}.

(** * Properties *)

(** ** The loop-body monad *)

Lemma bind_Next {A B : Type} (m : Body A) (k : A → Body B) w a w1 :
  m w = (Next a, w1) → (m ≫= k) w = k a w1.
Proof. intros H. unfold mbind, Body_bind. by rewrite H. Qed.

Lemma bind_Continue {A B : Type} (m : Body A) (k : A → Body B) w w1 :
  m w = (Continue, w1) → (m ≫= k) w = (Continue, w1).
Proof. intros H. unfold mbind, Body_bind. by rewrite H. Qed.

Lemma bind_Return {A B : Type} (m : Body A) (k : A → Body B) w err w1 :
  m w = (Return err, w1) → (m ≫= k) w = (Return err, w1).
Proof. intros H. unfold mbind, Body_bind. by rewrite H. Qed.

Lemma bind_inv_Next {A B : Type} (m : Body A) (k : A → Body B) w b w' :
  (m ≫= k) w = (Next b, w') →
  ∃ a w1, m w = (Next a, w1) ∧ k a w1 = (Next b, w').
Proof.
  unfold mbind, Body_bind. destruct (m w) as [[a| |err] w1]; intros H.
  - by exists a, w1.
  - discriminate.
  - discriminate.
Qed.

Lemma getOrContinue_Ok {R : Type} (sel : Store → Result R) format w r :
  sel (store w) = Ok r →
  getOrContinue (ReaderGetByID sel) format w = (Next r, w).
Proof. intros H. unfold getOrContinue, ReaderGetByID. by rewrite H. Qed.

Lemma getOrContinue_NotFound {R : Type} (sel : Store → Result R) format w err :
  sel (store w) = Err err → IsNotFoundError err = true →
  getOrContinue (ReaderGetByID sel) format w = (Continue, w).
Proof. intros H1 H2. unfold getOrContinue, ReaderGetByID. by rewrite H1, H2. Qed.

Lemma getOrContinue_inv_Next {R : Type} (sel : Store → Result R) format w r w' :
  getOrContinue (ReaderGetByID sel) format w = (Next r, w') →
  sel (store w) = Ok r ∧ w' = w.
Proof.
  unfold getOrContinue, ReaderGetByID.
  destruct (sel (store w)) as [err|a].
  - destruct (IsNotFoundError err); discriminate.
  - intros [= -> ->]. done.
Qed.

Lemma orReturn_inv_Next {A : Type} (call : IO A) wrap w a w' :
  orReturn call wrap w = (Next a, w') → call w = (Ok a, w').
Proof.
  unfold orReturn. destruct (call w) as [[err|x] w1]; [discriminate|].
  by intros [= -> ->].
Qed.

Lemma orReturn_not_Continue {A : Type} (call : IO A) wrap w w' :
  orReturn call wrap w ≠ (Continue, w').
Proof. unfold orReturn. by destruct (call w) as [[err|x] w1]. Qed.

Lemma forRange_cons_inv_Next {A : Type} (x : A) (l : list A) (body : A → Body unit) w w' :
  forRange (x :: l) body w = (Next tt, w') →
  ∃ w1, body x w = (Next tt, w1) ∧ forRange l body w1 = (Next tt, w').
Proof.
  simpl. intros H. apply bind_inv_Next in H as ([] & w1 & H1 & H2). by exists w1.
Qed.

Lemma forRange_nil_inv {A : Type} (body : A → Body unit) w r w' :
  forRange [] body w = (r, w') → r = Next tt ∧ w' = w.
Proof. by intros [= <- <-]. Qed.

(** A run, from its result alone. *)
Lemma run_result {X : Type} (m : World → X * World) w r :
  fst (m w) = r → m w = (r, snd (m w)).
Proof. intros <-. by destruct (m w). Qed.

(** ** Rules for [respects] *)

Section Respects.

Variable R : World → World → Prop.
Hypothesis R_refl : ∀ w, R w w.
Hypothesis R_trans : ∀ w1 w2 w3, R w1 w2 → R w2 w3 → R w1 w3.

Lemma respects_ret {A : Type} (a : A) : respects R (mret a : Body A).
Proof. intros w r w' [= <- <-]. apply R_refl. Qed.

Lemma respects_pure {A : Type} (x : Result A) : respects R (pure x).
Proof. intros w r w' [= <- <-]. apply R_refl. Qed.

Lemma respects_bind {A B : Type} (m : Body A) (k : A → Body B) :
  respects R m → (∀ a, respects R (k a)) → respects R (m ≫= k).
Proof.
  intros Hm Hk w r w'. unfold mbind, Body_bind.
  destruct (m w) as [[a| |err] w1] eqn:E; intros H.
  - eapply R_trans; [by eapply Hm | by eapply Hk].
  - injection H as <- <-. by eapply Hm.
  - injection H as <- <-. by eapply Hm.
Qed.

Lemma respects_io_bind {A B : Type} (m : IO A) (k : A → IO B) :
  respects R m → (∀ a, respects R (k a)) → respects R (m ≫= k).
Proof.
  intros Hm Hk w r w'. unfold mbind, IO_bind.
  destruct (m w) as [[err|a] w1] eqn:E; intros H.
  - injection H as <- <-. by eapply Hm.
  - eapply R_trans; [by eapply Hm | by eapply Hk].
Qed.

Lemma respects_orReturn {A : Type} (call : IO A) wrap :
  respects R call → respects R (orReturn call wrap).
Proof.
  intros Hc w r w'. unfold orReturn.
  destruct (call w) as [[err|a] w1] eqn:E; intros [= <- <-]; by eapply Hc.
Qed.

Lemma respects_getOrContinue {A : Type} (sel : Store → Result A) format :
  respects R (getOrContinue (ReaderGetByID sel) format).
Proof.
  intros w r w'. unfold getOrContinue, ReaderGetByID.
  destruct (sel (store w)) as [err|a].
  - destruct (IsNotFoundError err); intros [= <- <-]; apply R_refl.
  - intros [= <- <-]. apply R_refl.
Qed.

Lemma respects_forRange {A : Type} (l : list A) (body : A → Body unit) :
  (∀ x, x ∈ l → respects R (body x)) → respects R (forRange l body).
Proof.
  induction l as [|x l IH]; intros Hb; simpl.
  - apply respects_ret.
  - apply respects_bind.
    + apply Hb. by left.
    + intros _. apply IH. intros y Hy. apply Hb. by right.
Qed.

End Respects.

(** ** The file system calls, path by path *)

Lemma mkdirFrom_lookup (rest parent : path) (perm : Z) (m m' : gmap path node) r (p : path) :
  os.mkdirFrom parent rest perm m = (r, m') →
  m' !! p = m !! p ∨
  (m !! p = None ∧ m' !! p = Some (Dir perm 0 0) ∧ p `prefix_of` parent ++ rest).
Proof.
  revert parent m. induction rest as [|c rest IH]; intros parent m; simpl.
  - intros [= <- <-]. by left.
  - destruct (m !! (parent ++ [c])) as [[dperm duid dgid|data fperm fuid fgid]|] eqn:E.
    + intros H. destruct (IH _ _ H) as [Heq|(Hn & Hs & Hp)]; [by left|right].
      split_and!; [done|done|]. by rewrite <- app_assoc in Hp.
    + intros [= <- <-]. by left.
    + intros H. destruct (IH _ _ H) as [Heq|(Hn & Hs & Hp)].
      * destruct (decide (parent ++ [c] = p)) as [<-|Hne].
        -- right. rewrite Heq, lookup_insert_eq. split_and!; [done|done|].
           rewrite (cons_middle c parent rest), app_assoc. by apply prefix_app_r.
        -- left. by rewrite Heq, lookup_insert_ne.
      * right. destruct (decide (parent ++ [c] = p)) as [<-|Hne].
        -- by rewrite lookup_insert_eq in Hn.
        -- rewrite lookup_insert_ne in Hn by done.
           split_and!; [done|done|]. by rewrite <- app_assoc in Hp.
Qed.

Lemma MkdirAll_lookup (dir : path) (perm : Z) w r w' (p : path) :
  os.MkdirAll dir perm w = (r, w') →
  fs w' !! p = fs w !! p ∨
  (fs w !! p = None ∧ fs w' !! p = Some (Dir perm 0 0) ∧ p `prefix_of` dir).
Proof.
  unfold os.MkdirAll.
  destruct (os.mkdirFrom [] dir perm (fs w)) as [r0 m] eqn:E.
  intros [= <- <-]. simpl. by apply (mkdirFrom_lookup dir [] perm _ _ r0 p).
Qed.

Lemma WriteFile_lookup (name : path) (data : bytes) (perm : Z) w r w' (p : path) :
  os.WriteFile name data perm w = (r, w') →
  fs w' !! p = fs w !! p ∨
  (p = name ∧ r = Ok tt ∧
   ((fs w !! p = None ∧ fs w' !! p = Some (File data perm 0 0)) ∨
    (∃ data0 perm0 uid0 gid0,
       fs w !! p = Some (File data0 perm0 uid0 gid0) ∧
       fs w' !! p = Some (File data perm0 uid0 gid0)))).
Proof.
  unfold os.WriteFile.
  destruct (fs w !! name) as [[dperm duid dgid|data0 perm0 uid0 gid0]|] eqn:E.
  - intros [= <- <-]. by left.
  - intros [= <- <-]. simpl.
    destruct (decide (name = p)) as [<-|Hne].
    + right. rewrite lookup_insert_eq. split_and!; [done|done|].
      right. by exists data0, perm0, uid0, gid0.
    + left. by rewrite lookup_insert_ne.
  - destruct name as [|c name']; [intros [= <- <-]; by left|].
    destruct (os.isDir (fs w) (removelast (c :: name'))).
    + intros [= <- <-]. simpl.
      destruct (decide (c :: name' = p)) as [<-|Hne].
      * right. rewrite lookup_insert_eq. split_and!; [done|done|]. by left.
      * left. by rewrite lookup_insert_ne.
    + intros [= <- <-]. by left.
Qed.

Lemma WriteFile_Ok (name : path) (data : bytes) (perm : Z) w w' :
  os.WriteFile name data perm w = (Ok tt, w') → holds name data w'.
Proof.
  unfold os.WriteFile, holds.
  destruct (fs w !! name) as [[dperm duid dgid|data0 perm0 uid0 gid0]|] eqn:E.
  - discriminate.
  - intros [= <-]. simpl. rewrite lookup_insert_eq. by eexists _, _, _.
  - destruct name as [|c name']; [discriminate|].
    destruct (os.isDir (fs w) (removelast (c :: name'))); [|discriminate].
    intros [= <-]. simpl. rewrite lookup_insert_eq. by eexists _, _, _.
Qed.

Lemma Chown_lookup (name : path) (uid gid : Z) w r w' (p : path) :
  os.Chown name uid gid w = (r, w') →
  fs w' !! p = fs w !! p ∨
  (p = name ∧
   ((∃ data perm uid0 gid0,
       fs w !! p = Some (File data perm uid0 gid0) ∧
       fs w' !! p = Some (File data perm uid gid)) ∨
    (∃ perm uid0 gid0,
       fs w !! p = Some (Dir perm uid0 gid0) ∧
       fs w' !! p = Some (Dir perm uid gid)))).
Proof.
  unfold os.Chown.
  destruct (fs w !! name) as [[dperm duid dgid|data0 perm0 uid0 gid0]|] eqn:E.
  - intros [= <- <-]. simpl.
    destruct (decide (name = p)) as [<-|Hne].
    + right. rewrite lookup_insert_eq. split; [done|]. right. by eexists _, _, _.
    + left. by rewrite lookup_insert_ne.
  - intros [= <- <-]. simpl.
    destruct (decide (name = p)) as [<-|Hne].
    + right. rewrite lookup_insert_eq. split; [done|]. left. by eexists _, _, _, _.
    + left. by rewrite lookup_insert_ne.
  - intros [= <- <-]. by left.
Qed.

(** The calls leave everything but the file system alone. *)
Lemma MkdirAll_rest (dir : path) (perm : Z) w r w' :
  os.MkdirAll dir perm w = (r, w') → ∃ m, w' = setFS m w.
Proof.
  unfold os.MkdirAll. destruct (os.mkdirFrom [] dir perm (fs w)) as [r0 m].
  intros [= <- <-]. by exists m.
Qed.

Lemma WriteFile_rest (name : path) (data : bytes) (perm : Z) w r w' :
  os.WriteFile name data perm w = (r, w') → w' = w ∨ ∃ m, w' = setFS m w.
Proof.
  unfold os.WriteFile.
  destruct (fs w !! name) as [[dperm duid dgid|data0 perm0 uid0 gid0]|].
  - intros [= <- <-]. by left.
  - intros [= <- <-]. right. by eexists.
  - destruct name as [|c name']; [intros [= <- <-]; by left|].
    destruct (os.isDir (fs w) (removelast (c :: name'))); intros [= <- <-].
    + right. by eexists.
    + by left.
Qed.

Lemma Chown_rest (name : path) (uid gid : Z) w r w' :
  os.Chown name uid gid w = (r, w') → w' = w ∨ ∃ m, w' = setFS m w.
Proof.
  unfold os.Chown.
  destruct (fs w !! name) as [[dperm duid dgid|data0 perm0 uid0 gid0]|];
    intros [= <- <-]; (by left) || (right; by eexists).
Qed.

(** ** The relations are preorders, blind to the standard output *)

Lemma sameStore_refl w : sameStore w w.
Proof. done. Qed.

Lemma sameStore_trans w1 w2 w3 : sameStore w1 w2 → sameStore w2 w3 → sameStore w1 w3.
Proof. unfold sameStore. congruence. Qed.

Lemma sameFS_refl w : sameFS w w.
Proof. done. Qed.

Lemma sameFS_trans w1 w2 w3 : sameFS w1 w2 → sameFS w2 w3 → sameFS w1 w3.
Proof. unfold sameFS. congruence. Qed.

Lemma sameStdout_refl w : sameStdout w w.
Proof. done. Qed.

Lemma modeStep_refl (o : option node) : modeStep o o.
Proof. by destruct o as [[]|]. Qed.

Lemma modeStep_trans (a b c : option node) : modeStep a b → modeStep b c → modeStep a c.
Proof.
  destruct a as [[]|], b as [[]|], c as [[]|]; simpl; try done; congruence.
Qed.

Lemma modesKept_refl w : modesKept w w.
Proof. intros p. apply modeStep_refl. Qed.

Lemma modesKept_trans w1 w2 w3 : modesKept w1 w2 → modesKept w2 w3 → modesKept w1 w3.
Proof. intros H1 H2 p. eapply modeStep_trans; [apply H1 | apply H2]. Qed.

Lemma changesWithin_refl P w : changesWithin P w w.
Proof. by intros p _. Qed.

Lemma changesWithin_trans P w1 w2 w3 :
  changesWithin P w1 w2 → changesWithin P w2 w3 → changesWithin P w1 w3.
Proof. intros H1 H2 p Hp. by rewrite (H2 p Hp), (H1 p Hp). Qed.

Lemma changesWithin_weaken (P Q : path → Prop) w w' :
  (∀ p, P p → Q p) → changesWithin P w w' → changesWithin Q w w'.
Proof. intros HPQ H p Hp. apply H. intros HP. apply Hp. by apply HPQ. Qed.

Lemma keeps_refl p data w : keeps p data w w.
Proof. by intros H. Qed.

Lemma keeps_trans p data w1 w2 w3 :
  keeps p data w1 w2 → keeps p data w2 w3 → keeps p data w1 w3.
Proof. unfold keeps. auto. Qed.

Lemma sameFS_modesKept w w' : sameFS w w' → modesKept w w'.
Proof. intros H p. rewrite H. apply modeStep_refl. Qed.

Lemma sameFS_changesWithin P w w' : sameFS w w' → changesWithin P w w'.
Proof. intros H p _. by rewrite H. Qed.

Lemma sameFS_keeps p data w w' : sameFS w w' → keeps p data w w'.
Proof. unfold keeps, holds. intros H. by rewrite H. Qed.

(** ** What each call respects *)

Lemma MkdirAll_sameStore dir perm : respects sameStore (os.MkdirAll dir perm).
Proof. intros w r w' H. by destruct (MkdirAll_rest _ _ _ _ _ H) as [m ->]. Qed.

Lemma WriteFile_sameStore name data perm : respects sameStore (os.WriteFile name data perm).
Proof. intros w r w' H. by destruct (WriteFile_rest _ _ _ _ _ _ H) as [->|[m ->]]. Qed.

Lemma Chown_sameStore name uid gid : respects sameStore (os.Chown name uid gid).
Proof. intros w r w' H. by destruct (Chown_rest _ _ _ _ _ _ H) as [->|[m ->]]. Qed.

Lemma MkdirAll_modesKept dir : respects modesKept (os.MkdirAll dir perm_0o755).
Proof.
  intros w r w' H p.
  destruct (MkdirAll_lookup dir _ w r w' p H) as [->|(-> & -> & _)];
    [apply modeStep_refl | done].
Qed.

Lemma WriteFile_modesKept name data : respects modesKept (os.WriteFile name data perm_0o400).
Proof.
  intros w r w' H p.
  destruct (WriteFile_lookup name data _ w r w' p H)
    as [->|(_ & _ & [[-> ->]|(d0 & p0 & u0 & g0 & -> & ->)])];
    [apply modeStep_refl | done | done].
Qed.

Lemma Chown_modesKept name uid gid : respects modesKept (os.Chown name uid gid).
Proof.
  intros w r w' H p.
  destruct (Chown_lookup name uid gid w r w' p H)
    as [->|(_ & [(d0 & p0 & u0 & g0 & -> & ->)|(p0 & u0 & g0 & -> & ->)])];
    [apply modeStep_refl | done | done].
Qed.

Lemma MkdirAll_changesWithin dir perm :
  respects (changesWithin (λ p, p `prefix_of` dir)) (os.MkdirAll dir perm).
Proof.
  intros w r w' H p Hp.
  by destruct (MkdirAll_lookup dir perm w r w' p H) as [->|(_ & _ & Hpre)].
Qed.

Lemma WriteFile_changesWithin name data perm :
  respects (changesWithin (λ p, p = name)) (os.WriteFile name data perm).
Proof.
  intros w r w' H p Hp.
  by destruct (WriteFile_lookup name data perm w r w' p H) as [->|(Heq & _)].
Qed.

Lemma Chown_changesWithin name uid gid :
  respects (changesWithin (λ p, p = name)) (os.Chown name uid gid).
Proof.
  intros w r w' H p Hp.
  by destruct (Chown_lookup name uid gid w r w' p H) as [->|(Heq & _)].
Qed.

Lemma MkdirAll_keeps p data dir perm : respects (keeps p data) (os.MkdirAll dir perm).
Proof.
  intros w r w' H (fperm & fuid & fgid & Hl).
  destruct (MkdirAll_lookup dir perm w r w' p H) as [Heq|(Hn & _)].
  - exists fperm, fuid, fgid. by rewrite Heq.
  - by rewrite Hl in Hn.
Qed.

Lemma WriteFile_keeps p data name data' perm :
  name ≠ p → respects (keeps p data) (os.WriteFile name data' perm).
Proof.
  intros Hne w r w' H (fperm & fuid & fgid & Hl).
  destruct (WriteFile_lookup name data' perm w r w' p H) as [Heq|(Heq & _)].
  - exists fperm, fuid, fgid. by rewrite Heq.
  - by subst.
Qed.

Lemma Chown_keeps p data name uid gid : respects (keeps p data) (os.Chown name uid gid).
Proof.
  intros w r w' H (fperm & fuid & fgid & Hl).
  destruct (Chown_lookup name uid gid w r w' p H)
    as [Heq|(_ & [(d0 & p0 & u0 & g0 & H0 & H1)|(p0 & u0 & g0 & H0 & H1)])].
  - exists fperm, fuid, fgid. by rewrite Heq.
  - rewrite Hl in H0. injection H0 as <- <- <- <-. by eexists _, _, _.
  - by rewrite Hl in H0.
Qed.

Lemma Println_sameStore a : respects sameStore (fmt.Println a).
Proof. by intros w r w' [= <- <-]. Qed.

Lemma Println_sameFS a : respects sameFS (fmt.Println a).
Proof. by intros w r w' [= <- <-]. Qed.

Lemma WriterModify_sameFS g : respects sameFS (WriterModify g).
Proof.
  intros w r w'. unfold WriterModify.
  by destruct (g _); intros [= <- <-].
Qed.

Lemma ResetRestartBackoff_sameFS : respects sameFS ResetRestartBackoff.
Proof. by intros w r w' [= <- <-]. Qed.

Lemma respects_weaken {X : Type} (R Q : World → World → Prop) (m : World → X * World) :
  (∀ w w', R w w' → Q w w') → respects R m → respects Q m.
Proof. intros HRQ Hm w r w' H. apply HRQ. by eapply Hm. Qed.

(** ** The converters and the two loops *)

Section Rendering.

Variable constants : Constants.
Variable json_Marshal : Payload → Result bytes.
Variable serializer_Encode : Object → Result bytes.

(** The closures found in the configuration lists of the two pods. *)
Lemma configs_converters adm aud an az sch p cf :
  p ∈ pods constants json_Marshal adm aud (apiServerConfigs an az) sch →
  cf ∈ configs p →
  (∃ spec, f cf = admissionControlConfig json_Marshal spec) ∨
  (∃ spec, f cf = auditPolicyConfig spec) ∨
  (∃ spec, f cf = structuredAuthenticationConfig spec) ∨
  (∃ spec, f cf = structuredAuthorizationConfig spec) ∨
  (∃ spec, f cf = schedulerConfig constants spec).
Proof.
  unfold pods, apiServerConfigs. intros Hp Hcf.
  apply elem_of_cons in Hp as [->|Hp]; simpl in Hcf.
  - apply elem_of_cons in Hcf as [->|Hcf]; [left; by eexists|].
    apply elem_of_cons in Hcf as [->|Hcf]; [right; left; by eexists|].
    destruct an as [c1|], az as [c2|]; simpl in Hcf;
      repeat match type of Hcf with
             | context [if ?b then _ else _] => destruct b; simpl in Hcf
             end;
      repeat (apply elem_of_cons in Hcf as [->|Hcf]; simpl;
              [naive_solver|]);
      by apply elem_of_nil in Hcf.
  - apply elem_of_cons in Hp as [->|Hp]; [|by apply elem_of_nil in Hp].
    simpl in Hcf. apply elem_of_cons in Hcf as [->|Hcf]; [|by apply elem_of_nil in Hcf].
    do 4 right. by eexists.
Qed.

Section Relation.

Variable R : World → World → Prop.
Hypothesis R_refl : ∀ w, R w w.
Hypothesis R_trans : ∀ w1 w2 w3, R w1 w2 → R w2 w3 → R w1 w3.
Hypothesis R_Println : ∀ a, respects R (fmt.Println a).

Lemma configs_respect adm aud an az sch p cf :
  p ∈ pods constants json_Marshal adm aud (apiServerConfigs an az) sch →
  cf ∈ configs p →
  respects R (f cf).
Proof.
  intros Hp Hcf.
  destruct (configs_converters _ _ _ _ _ _ _ Hp Hcf)
    as [[s ->]|[[s ->]|[[s ->]|[[s ->]|[s ->]]]]];
    try (by apply respects_pure).
  unfold structuredAuthenticationConfig.
  apply respects_io_bind; [done|apply R_Println|].
  intros _. by apply respects_pure.
Qed.

Lemma renderConfigFile_respects p cf :
  respects R (f cf) →
  (∀ data, respects R (os.WriteFile (filepath.Join (directory p) (filename cf)) data perm_0o400)) →
  respects R (os.Chown (filepath.Join (directory p) (filename cf)) (uid p) (gid p)) →
  respects R (renderConfigFile serializer_Encode p cf).
Proof.
  intros Hf Hw Hc. unfold renderConfigFile.
  apply respects_bind; [done|by apply respects_orReturn|]. intros obj.
  apply respects_bind; [done|apply respects_orReturn; by apply respects_pure|].
  intros buf.
  apply respects_bind; [done|by apply respects_orReturn|]. intros _.
  by apply respects_orReturn.
Qed.

Lemma renderPod_respects p :
  respects R (os.MkdirAll (directory p) perm_0o755) →
  (∀ cf, cf ∈ configs p → respects R (renderConfigFile serializer_Encode p cf)) →
  respects R (renderPod serializer_Encode p).
Proof.
  intros Hm Hcf. unfold renderPod.
  apply respects_bind; [done|by apply respects_orReturn|]. intros _.
  by apply respects_forRange.
Qed.

(** A relation every file system call respects holds across the whole
    loop over the pods. *)
Lemma pods_respect adm aud an az sch :
  (∀ dir, respects R (os.MkdirAll dir perm_0o755)) →
  (∀ name data, respects R (os.WriteFile name data perm_0o400)) →
  (∀ name uid gid, respects R (os.Chown name uid gid)) →
  respects R
    (forRange (pods constants json_Marshal adm aud (apiServerConfigs an az) sch)
       (renderPod serializer_Encode)).
Proof.
  intros Hm Hw Hc. apply respects_forRange; [done|done|].
  intros p Hp. apply renderPod_respects; [done|].
  intros cf Hcf. apply renderConfigFile_respects; [|done|done].
  by eapply configs_respect.
Qed.

End Relation.

Lemma pods_sameStore adm aud an az sch :
  respects sameStore
    (forRange (pods constants json_Marshal adm aud (apiServerConfigs an az) sch)
       (renderPod serializer_Encode)).
Proof.
  apply pods_respect.
  - apply sameStore_refl.
  - apply sameStore_trans.
  - apply Println_sameStore.
  - intros dir. apply MkdirAll_sameStore.
  - intros name data. apply WriteFile_sameStore.
  - intros name uid gid. apply Chown_sameStore.
Qed.

Lemma pods_modesKept adm aud an az sch :
  respects modesKept
    (forRange (pods constants json_Marshal adm aud (apiServerConfigs an az) sch)
       (renderPod serializer_Encode)).
Proof.
  apply pods_respect.
  - apply modesKept_refl.
  - apply modesKept_trans.
  - intros a. eapply respects_weaken; [apply sameFS_modesKept | apply Println_sameFS].
  - apply MkdirAll_modesKept.
  - apply WriteFile_modesKept.
  - apply Chown_modesKept.
Qed.

(** The whole body of the loop keeps the modes. *)
Lemma iteration_modesKept :
  respects modesKept (iteration constants json_Marshal serializer_Encode).
Proof.
  unfold iteration.
  repeat (apply respects_bind;
          [apply modesKept_trans
          | apply respects_getOrContinue, modesKept_refl | intros ?]).
  apply respects_bind; [apply modesKept_trans | apply pods_modesKept | intros _].
  apply respects_bind; [apply modesKept_trans | | intros _].
  - apply respects_orReturn.
    eapply respects_weaken; [apply sameFS_modesKept | apply WriterModify_sameFS].
  - eapply respects_weaken; [apply sameFS_modesKept | apply ResetRestartBackoff_sameFS].
Qed.

End Rendering.

(** ** The converters *)

(** The plugin loop extends the list it is given, in order. *)
Lemma admissionPlugins_spec json_Marshal plugins cfg acc cfg' :
  AdmissionConfiguration.Plugins cfg = Some acc →
  admissionPlugins json_Marshal plugins cfg = Ok cfg' →
  AdmissionConfiguration.TypeMeta cfg' = AdmissionConfiguration.TypeMeta cfg ∧
  ∃ out,
    AdmissionConfiguration.Plugins cfg' = Some (acc ++ out) ∧
    Forall2 (λ plugin q,
               ∃ raw, json_Marshal (AdmissionPluginSpec.Configuration plugin) = Ok raw ∧
                 q = {| AdmissionPluginConfiguration.Name := AdmissionPluginSpec.Name plugin;
                        AdmissionPluginConfiguration.Path := EmptyString;
                        AdmissionPluginConfiguration.Configuration :=
                          Some {| Unknown.Raw := raw |} |})
            plugins out.
Proof.
  revert cfg acc. induction plugins as [|plugin rest IH]; intros cfg acc Hd; simpl.
  - intros [= <-]. split; [done|]. exists []. by rewrite app_nil_r.
  - destruct (json_Marshal (AdmissionPluginSpec.Configuration plugin)) as [err|raw] eqn:E;
      [discriminate|].
    intros H. eapply IH in H as (Htm & out & Hout & Hall).
    2: { simpl. rewrite Hd. simpl. reflexivity. }
    split; [done|].
    eexists (_ :: out). split.
    + by rewrite Hout, <- app_assoc.
    + constructor; [|done]. by exists raw.
Qed.

(** The plugin loop fails only where [json.Marshal] fails. *)
Lemma admissionPlugins_Ok json_Marshal plugins cfg :
  Forall (λ plugin, ∃ raw, json_Marshal (AdmissionPluginSpec.Configuration plugin) = Ok raw)
    plugins →
  ∃ cfg', admissionPlugins json_Marshal plugins cfg = Ok cfg'.
Proof.
  intros H. revert cfg. induction H as [|plugin rest [raw Hraw] _ IH]; intros cfg; simpl.
  - by eexists.
  - rewrite Hraw. apply IH.
Qed.

(** Hence the converter returns a document whenever every plugin
    configuration can be marshalled. *)
Lemma admissionControlConfig_Ok json_Marshal spec w :
  Forall (λ plugin, ∃ raw, json_Marshal (AdmissionPluginSpec.Configuration plugin) = Ok raw)
    (AdmissionControlConfigSpec.Config spec) →
  ∃ obj, admissionControlConfig json_Marshal spec w = (Ok obj, w).
Proof.
  intros H. unfold admissionControlConfig, pure.
  eapply admissionPlugins_Ok in H as [cfg ->]. by eexists.
Qed.

(** C9: the plugin list of the rendered AdmissionConfiguration has the
    length of the input list, and its i-th entry carries the name of the
    i-th input plugin and the bytes [json.Marshal] gave for that plugin's
    configuration: nothing is sorted, moved or dropped. *)
Theorem C9_admission_plugins_keep_order
    (json_Marshal : Payload → Result bytes) (spec : AdmissionControlConfigSpec.t)
    (w w' : World) (obj : Object) :
  admissionControlConfig json_Marshal spec w = (Ok obj, w') →
  ∃ cfg plugins,
    obj = AdmissionConfigurationObject cfg ∧
    AdmissionConfiguration.Plugins cfg = Some plugins ∧
    length plugins = length (AdmissionControlConfigSpec.Config spec) ∧
    ∀ (i : nat) plugin,
      AdmissionControlConfigSpec.Config spec !! i = Some plugin →
      ∃ raw,
        json_Marshal (AdmissionPluginSpec.Configuration plugin) = Ok raw ∧
        plugins !! i =
          Some {| AdmissionPluginConfiguration.Name := AdmissionPluginSpec.Name plugin;
                  AdmissionPluginConfiguration.Path := EmptyString;
                  AdmissionPluginConfiguration.Configuration :=
                    Some {| Unknown.Raw := raw |} |}.
Proof.
  unfold admissionControlConfig, pure. intros [= H <-].
  unfold mbind, Result_bind in H.
  destruct (admissionPlugins _ _ _) as [err|cfg] eqn:E; [discriminate|].
  injection H as <-.
  eapply admissionPlugins_spec in E as (_ & out & Hout & Hall); [|reflexivity].
  exists cfg, out. split_and!; [done|done| |].
  - symmetry. by eapply Forall2_length.
  - intros i plugin Hi.
    destruct (Forall2_lookup_l _ _ _ _ _ Hall Hi) as (q & Hq & raw & Hraw & ->).
    by exists raw.
Qed.

Lemma C9_admission_plugins_keep_order_witness :
  ∃ obj,
    admissionControlConfig sampleMarshal
      {| AdmissionControlConfigSpec.Config := samplePlugins |} (worldOf sampleStore)
    = (Ok obj, worldOf sampleStore) ∧
    ∃ cfg plugins,
      obj = AdmissionConfigurationObject cfg ∧
      AdmissionConfiguration.Plugins cfg = Some plugins ∧
      length plugins = length samplePlugins ∧
      ∀ (i : nat) plugin,
        samplePlugins !! i = Some plugin →
        ∃ raw,
          sampleMarshal (AdmissionPluginSpec.Configuration plugin) = Ok raw ∧
          plugins !! i =
            Some {| AdmissionPluginConfiguration.Name := AdmissionPluginSpec.Name plugin;
                    AdmissionPluginConfiguration.Path := EmptyString;
                    AdmissionPluginConfiguration.Configuration :=
                      Some {| Unknown.Raw := raw |} |}.
Proof.
  eexists. split.
  - vm_compute. reflexivity.
  - apply (C9_admission_plugins_keep_order sampleMarshal
             {| AdmissionControlConfigSpec.Config := samplePlugins |}
             (worldOf sampleStore) (worldOf sampleStore)).
    vm_compute. reflexivity.
Defined.

(** C8: whatever the payload says, a scheduler configuration that is
    rendered has the kubeconfig of its client connection at the path the
    controller fixes, the file [kubeconfig] of the scheduler secrets
    directory. *)
Theorem C8_scheduler_kubeconfig_is_fixed
    (constants : Constants) (spec : SchedulerConfigSpec.t) (w w' : World) (obj : Object) :
  schedulerConfig constants spec w = (Ok obj, w') →
  ∃ cfg,
    obj = KubeSchedulerConfigurationObject cfg ∧
    ClientConnectionConfiguration.Kubeconfig (KubeSchedulerConfiguration.ClientConnection cfg)
    = filepath.ToString
        (filepath.Join (KubernetesSchedulerSecretsDir constants) "kubeconfig").
Proof.
  unfold schedulerConfig, pure. intros [= H <-].
  destruct (FromUnstructuredWithValidation _ _ _) as [err|cfg]; [discriminate|].
  injection H as <-. by eexists.
Qed.

Lemma C8_scheduler_kubeconfig_is_fixed_witness :
  MapIndex "clientConnection" sampleScheduler
  = Some (VMap [("kubeconfig", VStr "/tmp/other-kubeconfig"); ("burst", VInt 10)]) ∧
  ∃ obj,
    schedulerConfig talosConstants {| SchedulerConfigSpec.Config := sampleScheduler |}
      (worldOf sampleStore)
    = (Ok obj, worldOf sampleStore) ∧
    ∃ cfg,
      obj = KubeSchedulerConfigurationObject cfg ∧
      ClientConnectionConfiguration.Kubeconfig (KubeSchedulerConfiguration.ClientConnection cfg)
      = "/system/secrets/kubernetes/kube-scheduler/kubeconfig".
Proof.
  split; [reflexivity|].
  eexists. split.
  - vm_compute. reflexivity.
  - apply (C8_scheduler_kubeconfig_is_fixed talosConstants
             {| SchedulerConfigSpec.Config := sampleScheduler |}
             (worldOf sampleStore) (worldOf sampleStore)).
    vm_compute. reflexivity.
Defined.


Lemma structuredAuthenticationConfig_stamps spec w obj w' :
  structuredAuthenticationConfig spec w = (Ok obj, w') →
  GetObjectKind obj
  = {| TypeMeta.Kind := "AuthenticationConfiguration";
       TypeMeta.APIVersion := "apiserver.config.k8s.io/v1beta1" |}.
Proof.
  unfold structuredAuthenticationConfig, pure, fmt.Println, mbind, IO_bind.
  intros [= H <-].
  destruct (FromUnstructuredWithValidation _ _ _) as [err|cfg]; [discriminate|].
  by injection H as <-.
Qed.



(** C4, where the code departs from it: [auditPolicyConfig] returns the
    decoded Policy as it is.  A payload without [apiVersion] and [kind]
    gives a document in which both are empty, and a payload that names
    another kind gives a document of that kind. *)
Theorem C4_audit_policy_keeps_payload_type_meta (w : World) :
  (∃ obj,
     auditPolicyConfig auditPolicyWithoutTypeMeta w = (Ok obj, w) ∧
     GetObjectKind obj
     = {| TypeMeta.Kind := EmptyString; TypeMeta.APIVersion := EmptyString |}) ∧
  (∃ obj,
     auditPolicyConfig auditPolicyWithOtherTypeMeta w = (Ok obj, w) ∧
     GetObjectKind obj
     = {| TypeMeta.Kind := "Bogus"; TypeMeta.APIVersion := "example.com/v0" |}).
Proof. split; eexists; (split; [reflexivity|reflexivity]). Qed.

(** The three converters that pass [true] reject a key their schema does
    not know. *)
Lemma strict_converters_reject_unknown_field (w : World) :
  fst (auditPolicyConfig {| AuditPolicyConfigSpec.Config := payloadWithUnknownField |} w)
  = Err (Errorf "error unmarshaling audit policy configuration: %w" []
           (ErrStrictDecoding ["bogusField"])) ∧
  fst (structuredAuthenticationConfig
         {| StructuredAuthenticationConfigSpec.Config := payloadWithUnknownField |} w)
  = Err (Errorf "error unmarshaling structured authentication configuration: %w" []
           (ErrStrictDecoding ["bogusField"])) ∧
  fst (structuredAuthorizationConfig
         {| StructuredAuthorizationConfigSpec.Config := payloadWithUnknownField |} w)
  = Err (Errorf "error unmarshaling structured authorization configuration: %w" []
           (ErrStrictDecoding ["bogusField"])).
Proof. split_and!; reflexivity. Qed.

(** C5, where the code departs from it: [schedulerConfig] passes [false]
    for [returnUnknownFields], so a key the scheduler schema does not know
    is dropped: the converter succeeds and the document is the one the
    empty payload gives. *)
Theorem C5_scheduler_drops_unknown_field (constants : Constants) (w : World) :
  ∃ obj,
    schedulerConfig constants {| SchedulerConfigSpec.Config := payloadWithUnknownField |} w
    = (Ok obj, w) ∧
    schedulerConfig constants {| SchedulerConfigSpec.Config := [] |} w = (Ok obj, w).
Proof. eexists. split; reflexivity. Qed.

(** C7, where the code departs from it: [structuredAuthenticationConfig]
    prints its payload on the standard output before converting it, and
    so does a pass of the loop over a store with a non-empty
    authentication payload. *)
Theorem C7_authentication_payload_is_printed
    (spec : StructuredAuthenticationConfigSpec.t) (w : World) :
  stdout (snd (structuredAuthenticationConfig spec w))
  = stdout w ++ [VMap (StructuredAuthenticationConfigSpec.Config spec)] ∧
  stdout (snd (iteration talosConstants sampleMarshal sampleEncode (worldOf storeWithOptional)))
  = [VMap [("jwt", VSlice [VMap [("issuer", VMap [("url", VStr "https://issuer")])]])]].
Proof.
  split.
  - reflexivity.
  - vm_compute. reflexivity.
Qed.

(** The other four converters are pure: they leave the world as it is. *)
Lemma pure_converters json_Marshal constants w :
  (∀ spec, snd (admissionControlConfig json_Marshal spec w) = w) ∧
  (∀ spec, snd (auditPolicyConfig spec w) = w) ∧
  (∀ spec, snd (structuredAuthorizationConfig spec w) = w) ∧
  (∀ spec, snd (schedulerConfig constants spec w) = w).
Proof. split_and!; reflexivity. Qed.

(** The pass over the sample store, whose optional payloads are empty:
    it reaches the end of the body, the three required files are there
    and the two optional ones are not; the file system holds these three
    files and the five directories on the way to them. *)
Example sample_pass_renders_three_files :
  let w' := snd (iteration talosConstants sampleMarshal sampleEncode (worldOf sampleStore)) in
  let api := KubernetesAPIServerConfigDir talosConstants in
  let scheduler := KubernetesSchedulerConfigDir talosConstants in
  fst (iteration talosConstants sampleMarshal sampleEncode (worldOf sampleStore)) = Next tt ∧
  bool_decide (is_Some (fs w' !! filepath.Join api "admission-control-config.yaml")) = true ∧
  bool_decide (is_Some (fs w' !! filepath.Join api "auditpolicy.yaml")) = true ∧
  bool_decide (is_Some (fs w' !! filepath.Join scheduler "scheduler-config.yaml")) = true ∧
  fs w' !! filepath.Join api "authentication-config.yaml" = None ∧
  fs w' !! filepath.Join api "authorization-config.yaml" = None ∧
  size (fs w') = 8%nat.
Proof. vm_compute. split_and!; reflexivity. Qed.

(** C1, where the code departs from it: with the three required
    resources in the store and the structured authentication resource (or
    the structured authorization resource) not found, the body of the loop
    leaves by [continue]: no directory, no file, no status, and [Run] is
    back in its [select]. *)
Theorem C1_absent_optional_resource_skips_the_pass
    (constants : Constants) (json_Marshal : Payload → Result bytes)
    (serializer_Encode : Object → Result bytes) :
  iteration constants json_Marshal serializer_Encode (worldOf storeWithoutAuthentication)
  = (Continue, worldOf storeWithoutAuthentication) ∧
  iteration constants json_Marshal serializer_Encode (worldOf storeWithoutAuthorization)
  = (Continue, worldOf storeWithoutAuthorization) ∧
  Run constants json_Marshal serializer_Encode [Event (λ st, st)]
    (worldOf storeWithoutAuthentication)
  = (Waiting, worldOf storeWithoutAuthentication).
Proof. split_and!; reflexivity. Qed.

(** ** Version tokens *)

Lemma append_length (s1 s2 : string) :
  String.length (s1 +:+ s2) = (String.length s1 + String.length s2)%nat.
Proof. induction s1 as [|a s1 IH]; simpl; [done|by rewrite IH]. Qed.

Lemma append_inv_tail (s1 s2 t : string) : s1 +:+ t = s2 +:+ t → s1 = s2.
Proof.
  revert s2. induction s1 as [|a s1 IH]; intros [|b s2]; intros H.
  - done.
  - apply (f_equal String.length) in H. rewrite !append_length in H. simpl in H. lia.
  - apply (f_equal String.length) in H. rewrite !append_length in H. simpl in H. lia.
  - cbn in H. injection H as -> H. by rewrite (IH _ H).
Qed.

(** Decimal numerals start with a digit, never with the [u] of
    [undefined]. *)
Lemma string_of_uint_not_undefined (d : Decimal.uint) :
  NilEmpty.string_of_uint d ≠ "undefined".
Proof. destruct d; simpl; try discriminate. Qed.

Lemma Version_String_inj (v1 v2 : Version.t) :
  Version.String v1 = Version.String v2 → v1 = v2.
Proof.
  destruct v1 as [[n1|]], v2 as [[n2|]]; unfold Version.String; simpl; intros H.
  - apply (f_equal NilEmpty.uint_of_string) in H. rewrite !NilEmpty.usu in H.
    injection H as H. apply DecimalN.Unsigned.to_uint_inj in H. by subst.
  - by apply string_of_uint_not_undefined in H.
  - symmetry in H. by apply string_of_uint_not_undefined in H.
  - done.
Qed.

(** ** A pass that reaches the end of the body *)

Lemma iteration_inv_Next constants json_Marshal serializer_Encode w w' :
  iteration constants json_Marshal serializer_Encode w = (Next tt, w') →
  ∃ admissionRes auditRes structuredAuthNRes structuredAuthZRes kubeSchedulerRes w1,
    AdmissionControlConfig (store w) = Ok admissionRes ∧
    AuditPolicyConfig (store w) = Ok auditRes ∧
    StructuredAuthenticationConfig (store w) = Ok structuredAuthNRes ∧
    StructuredAuthorizationConfig (store w) = Ok structuredAuthZRes ∧
    SchedulerConfig (store w) = Ok kubeSchedulerRes ∧
    forRange
      (pods constants json_Marshal (TypedSpec admissionRes) (TypedSpec auditRes)
         (apiServerConfigs (Some (TypedSpec structuredAuthNRes))
            (Some (TypedSpec structuredAuthZRes)))
         (TypedSpec kubeSchedulerRes))
      (renderPod serializer_Encode) w = (Next tt, w1) ∧
    w' = setBackoffResets (S (backoffResets w1))
           (setStore
              (setConfigStatus
                 (Some {| ConfigStatusSpec.Ready := true;
                          ConfigStatusSpec.Version :=
                            Version.String (Metadata_Version admissionRes)
                            +:+ Version.String (Metadata_Version auditRes)
                            +:+ Version.String (Metadata_Version kubeSchedulerRes) |})
                 (store w1))
              w1).
Proof.
  unfold iteration. intros H.
  apply bind_inv_Next in H as (adm & wa & Ha & H).
  apply getOrContinue_inv_Next in Ha as [Ha ->].
  apply bind_inv_Next in H as (aud & wa & Hb & H).
  apply getOrContinue_inv_Next in Hb as [Hb ->].
  apply bind_inv_Next in H as (an & wa & Hc & H).
  apply getOrContinue_inv_Next in Hc as [Hc ->].
  apply bind_inv_Next in H as (az & wa & Hd & H).
  apply getOrContinue_inv_Next in Hd as [Hd ->].
  apply bind_inv_Next in H as (sch & wa & He & H).
  apply getOrContinue_inv_Next in He as [He ->].
  apply bind_inv_Next in H as ([] & w1 & Hpods & H).
  apply bind_inv_Next in H as ([] & w2 & Hst & H).
  apply orReturn_inv_Next in Hst. unfold WriterModify in Hst. simpl in Hst.
  injection Hst as <-.
  unfold ResetRestartBackoff in H. injection H as <-.
  exists adm, aud, an, az, sch, w1. split_and!; done.
Qed.

(** C3: when a pass reaches the end of the body, the ConfigStatus it
    leaves is ready and its Version is the admission, audit and scheduler
    version tokens, concatenated in that order.  Hence, between two such
    passes that read the same admission and scheduler versions, the status
    differs when the audit versions differ and is the same when they
    agree, whatever the two optional resources hold. *)
Theorem C3_status_version_is_concatenation
    (constants : Constants) (json_Marshal : Payload → Result bytes)
    (serializer_Encode : Object → Result bytes) (w1 w1' : World) :
  iteration constants json_Marshal serializer_Encode w1 = (Next tt, w1') →
  ∃ admissionRes auditRes kubeSchedulerRes,
    AdmissionControlConfig (store w1) = Ok admissionRes ∧
    AuditPolicyConfig (store w1) = Ok auditRes ∧
    SchedulerConfig (store w1) = Ok kubeSchedulerRes ∧
    ConfigStatus (store w1')
    = Some {| ConfigStatusSpec.Ready := true;
              ConfigStatusSpec.Version :=
                Version.String (Metadata_Version admissionRes)
                +:+ Version.String (Metadata_Version auditRes)
                +:+ Version.String (Metadata_Version kubeSchedulerRes) |} ∧
    ∀ w2 w2',
      iteration constants json_Marshal serializer_Encode w2 = (Next tt, w2') →
      versionOf (AdmissionControlConfig (store w2))
      = versionOf (AdmissionControlConfig (store w1)) →
      versionOf (SchedulerConfig (store w2)) = versionOf (SchedulerConfig (store w1)) →
      (versionOf (AuditPolicyConfig (store w2)) ≠ versionOf (AuditPolicyConfig (store w1)) →
       ConfigStatusSpec.Version <$> ConfigStatus (store w2')
       ≠ ConfigStatusSpec.Version <$> ConfigStatus (store w1')) ∧
      (versionOf (AuditPolicyConfig (store w2)) = versionOf (AuditPolicyConfig (store w1)) →
       ConfigStatus (store w2') = ConfigStatus (store w1')).
Proof.
  intros H1.
  apply iteration_inv_Next in H1
    as (adm & aud & an & az & sch & wa & Ha & Hb & _ & _ & He & Hpods & ->).
  apply pods_sameStore in Hpods. unfold sameStore in Hpods.
  exists adm, aud, sch. split_and!; [done|done|done|done|].
  intros w2 w2' H2 Hva Hvs.
  apply iteration_inv_Next in H2
    as (adm2 & aud2 & an2 & az2 & sch2 & wb & Ha2 & Hb2 & _ & _ & He2 & Hpods2 & ->).
  rewrite Ha, Ha2 in Hva. rewrite He, He2 in Hvs. rewrite Hb, Hb2.
  simpl in Hva, Hvs. injection Hva as ->. injection Hvs as ->. simpl.
  split.
  - intros Hne Heq. apply Hne. f_equal. injection Heq as Heq.
    apply String.app_inj in Heq. apply append_inv_tail in Heq.
    by apply Version_String_inj.
  - by intros [= ->].
Qed.

Lemma C3_status_version_is_concatenation_witness :
  iteration talosConstants sampleMarshal sampleEncode (worldOf sampleStore)
  = (Next tt, snd (iteration talosConstants sampleMarshal sampleEncode (worldOf sampleStore))) ∧
  ConfigStatus
    (store (snd (iteration talosConstants sampleMarshal sampleEncode (worldOf sampleStore))))
  = Some {| ConfigStatusSpec.Ready := true; ConfigStatusSpec.Version := "357" |}.
Proof.
  assert (iteration talosConstants sampleMarshal sampleEncode (worldOf sampleStore)
          = (Next tt, snd (iteration talosConstants sampleMarshal sampleEncode
                             (worldOf sampleStore)))) as H
    by (apply run_result; vm_compute; reflexivity).
  split; [exact H|].
  destruct (C3_status_version_is_concatenation _ _ _ _ _ H)
    as (adm & aud & sch & Ha & Hb & Hc & Hs & _).
  injection Ha as <-. injection Hb as <-. injection Hc as <-.
  exact Hs.
Defined.

(** ** Modes of what a pass creates *)

(** C6, as the code has it: a file that a pass creates has mode [0o400],
    read by its owner and nothing else; a directory that a pass creates
    has mode [0o755], so group and others may read and traverse it, though
    not write. *)
Theorem C6_modes_of_created_nodes
    (constants : Constants) (json_Marshal : Payload → Result bytes)
    (serializer_Encode : Object → Result bytes)
    (w w' : World) (r : Step unit) (p : path) :
  iteration constants json_Marshal serializer_Encode w = (r, w') →
  fs w !! p = None →
  (∀ data perm uid gid,
     fs w' !! p = Some (File data perm uid gid) →
     perm = perm_0o400 ∧ Z.land perm mask_0o377 = 0) ∧
  (∀ perm uid gid,
     fs w' !! p = Some (Dir perm uid gid) →
     perm = perm_0o755 ∧ Z.land perm mask_0o077 = 5 * 8 + 5).
Proof.
  intros H Hnone. apply iteration_modesKept in H. specialize (H p).
  rewrite Hnone in H. split.
  - intros data perm uid gid Hl. rewrite Hl in H. simpl in H. by subst.
  - intros perm uid gid Hl. rewrite Hl in H. simpl in H. by subst.
Qed.

Lemma C6_modes_of_created_nodes_witness :
  fs (worldOf sampleStore)
    !! filepath.Join (KubernetesAPIServerConfigDir talosConstants) "auditpolicy.yaml" = None ∧
  (∀ data perm uid gid,
     fs (snd (iteration talosConstants sampleMarshal sampleEncode (worldOf sampleStore)))
       !! filepath.Join (KubernetesAPIServerConfigDir talosConstants) "auditpolicy.yaml"
     = Some (File data perm uid gid) →
     perm = perm_0o400 ∧ Z.land perm mask_0o377 = 0) ∧
  (∀ perm uid gid,
     fs (snd (iteration talosConstants sampleMarshal sampleEncode (worldOf sampleStore)))
       !! filepath.Join (KubernetesAPIServerConfigDir talosConstants) "auditpolicy.yaml"
     = Some (Dir perm uid gid) →
     perm = perm_0o755 ∧ Z.land perm mask_0o077 = 5 * 8 + 5).
Proof.
  split; [reflexivity|].
  apply (C6_modes_of_created_nodes talosConstants sampleMarshal sampleEncode
           (worldOf sampleStore) _
           (fst (iteration talosConstants sampleMarshal sampleEncode (worldOf sampleStore)))).
  - apply surjective_pairing.
  - reflexivity.
Defined.

(** C6 as it is written fails on the directories: on an empty file
    system the pass creates the API server directory with mode [0o755],
    which grants access to group and others. *)
Lemma C6_directory_mode_counterexample :
  ¬ (∀ (w w' : World) (r : Step unit) (p : path) perm uid gid,
       iteration talosConstants sampleMarshal sampleEncode w = (r, w') →
       fs w !! p = None →
       fs w' !! p = Some (Dir perm uid gid) →
       Z.land perm mask_0o077 = 0).
Proof.
  intros H.
  specialize (H (worldOf sampleStore) _ _
                (KubernetesAPIServerConfigDir talosConstants) perm_0o755 0 0
                (surjective_pairing _)).
  assert (Z.land perm_0o755 mask_0o077 = 0) as Hbits.
  { apply H; [reflexivity|]. vm_compute. reflexivity. }
  vm_compute in Hbits. discriminate.
Qed.

(** ** A pass in which the audit policy does not convert *)

Lemma bind_not_Continue {A B : Type} (m : Body A) (k : A → Body B) w w' :
  (∀ w1, m w ≠ (Continue, w1)) →
  (∀ a w1 w2, k a w1 ≠ (Continue, w2)) →
  (m ≫= k) w ≠ (Continue, w').
Proof.
  intros Hm Hk. unfold mbind, Body_bind.
  destruct (m w) as [[a| |err] w1] eqn:E.
  - apply Hk.
  - by destruct (Hm w1).
  - discriminate.
Qed.

Lemma renderConfigFile_not_Continue serializer_Encode p cf w w' :
  renderConfigFile serializer_Encode p cf w ≠ (Continue, w').
Proof.
  unfold renderConfigFile.
  apply bind_not_Continue; [intros; apply orReturn_not_Continue|]. intros obj w1 w2.
  apply bind_not_Continue; [intros; apply orReturn_not_Continue|]. intros buf w3 w4.
  apply bind_not_Continue; [intros; apply orReturn_not_Continue|]. intros _ w5 w6.
  apply orReturn_not_Continue.
Qed.

Lemma renderConfigFile_inv_Next serializer_Encode p cf w w' :
  renderConfigFile serializer_Encode p cf w = (Next tt, w') →
  ∃ obj buf w1 w2,
    f cf w = (Ok obj, w1) ∧
    serializer_Encode obj = Ok buf ∧
    os.WriteFile (filepath.Join (directory p) (filename cf)) buf perm_0o400 w1 = (Ok tt, w2) ∧
    os.Chown (filepath.Join (directory p) (filename cf)) (uid p) (gid p) w2 = (Ok tt, w').
Proof.
  unfold renderConfigFile. intros H.
  apply bind_inv_Next in H as (obj & w1 & Hf & H). apply orReturn_inv_Next in Hf.
  apply bind_inv_Next in H as (buf & w1' & He & H). apply orReturn_inv_Next in He.
  injection He as He <-.
  apply bind_inv_Next in H as ([] & w2 & Hw & H). apply orReturn_inv_Next in Hw.
  apply orReturn_inv_Next in H.
  by exists obj, buf, w1, w2.
Qed.

(** A file that has been rendered holds the encoded document. *)
Lemma renderConfigFile_holds serializer_Encode p cf w w' :
  renderConfigFile serializer_Encode p cf w = (Next tt, w') →
  ∃ obj buf w1,
    f cf w = (Ok obj, w1) ∧ serializer_Encode obj = Ok buf ∧
    holds (filepath.Join (directory p) (filename cf)) buf w'.
Proof.
  intros H. apply renderConfigFile_inv_Next in H as (obj & buf & w1 & w2 & Hf & He & Hw & Hc).
  exists obj, buf, w1. split_and!; [done|done|].
  eapply Chown_keeps; [exact Hc|]. by eapply WriteFile_Ok.
Qed.

Lemma renderConfigFile_changesWithin serializer_Encode p cf :
  respects sameFS (f cf) →
  respects (changesWithin (λ q, q = filepath.Join (directory p) (filename cf)))
    (renderConfigFile serializer_Encode p cf).
Proof.
  intros Hf. apply renderConfigFile_respects.
  - apply changesWithin_refl.
  - apply changesWithin_trans.
  - eapply respects_weaken; [apply sameFS_changesWithin | exact Hf].
  - intros data. apply WriteFile_changesWithin.
  - apply Chown_changesWithin.
Qed.

Lemma iteration_after_reads constants json_Marshal serializer_Encode w
    admissionRes auditRes structuredAuthNRes structuredAuthZRes kubeSchedulerRes :
  AdmissionControlConfig (store w) = Ok admissionRes →
  AuditPolicyConfig (store w) = Ok auditRes →
  StructuredAuthenticationConfig (store w) = Ok structuredAuthNRes →
  StructuredAuthorizationConfig (store w) = Ok structuredAuthZRes →
  SchedulerConfig (store w) = Ok kubeSchedulerRes →
  iteration constants json_Marshal serializer_Encode w
  = (forRange
       (pods constants json_Marshal (TypedSpec admissionRes) (TypedSpec auditRes)
          (apiServerConfigs (Some (TypedSpec structuredAuthNRes))
             (Some (TypedSpec structuredAuthZRes)))
          (TypedSpec kubeSchedulerRes))
       (renderPod serializer_Encode) ≫= λ _,
     (orReturn
        (WriterModify (λ r,
           let r := ConfigStatusSpec.setReady true r in
           let r := ConfigStatusSpec.setVersion
                      (Version.String (Metadata_Version admissionRes)
                       +:+ Version.String (Metadata_Version auditRes)
                       +:+ Version.String (Metadata_Version kubeSchedulerRes)) r in
           Ok r))
        (λ err, err) ≫= λ _, ResetRestartBackoff)) w.
Proof.
  intros Ha Hb Hc Hd He. unfold iteration.
  erewrite bind_Next; [|by apply getOrContinue_Ok].
  erewrite bind_Next; [|by apply getOrContinue_Ok].
  erewrite bind_Next; [|by apply getOrContinue_Ok].
  erewrite bind_Next; [|by apply getOrContinue_Ok].
  erewrite bind_Next; [|by apply getOrContinue_Ok].
  reflexivity.
Qed.

Section AuditFailure.

Variable constants : Constants.
Variable json_Marshal : Payload → Result bytes.
Variable serializer_Encode : Object → Result bytes.

Variable admissionConfig : AdmissionControlConfigSpec.t.
Variable auditConfig : AuditPolicyConfigSpec.t.
Variable optional : list configFile.
Variable err0 : error.

Hypothesis audit_fails :
  FromUnstructuredWithValidation (AuditPolicyConfigSpec.Config auditConfig)
    (structFromUnstructured Policy.fields) true = Err err0.

Local Abbreviation apiPod :=
  (apiServerPod constants json_Marshal admissionConfig auditConfig optional).
Local Abbreviation admissionFile :=
  {| filename := "admission-control-config.yaml";
     f := admissionControlConfig json_Marshal admissionConfig |}.
Local Abbreviation admissionPath :=
  (filepath.Join (KubernetesAPIServerConfigDir constants) "admission-control-config.yaml").
Local Abbreviation touched :=
  (λ p : path, p `prefix_of` KubernetesAPIServerConfigDir constants ∨ p = admissionPath).
Local Abbreviation auditError :=
  (Errorf "error generating configuration %q for %q: %w" ["auditpolicy.yaml"; "kube-apiserver"]
     (Errorf "error unmarshaling audit policy configuration: %w" [] err0)).

(** Rendering the API server pod stops at the audit policy at the
    latest. *)
Lemma apiServerPod_aborts w :
  ∃ err w',
    renderPod serializer_Encode apiPod w = (Return err, w') ∧
    changesWithin touched w w' ∧
    ∀ w1 w2,
      os.MkdirAll (KubernetesAPIServerConfigDir constants) perm_0o755 w = (Ok tt, w1) →
      renderConfigFile serializer_Encode apiPod admissionFile w1 = (Next tt, w2) →
      err = auditError ∧ w' = w2.
Proof.
  unfold renderPod. simpl.
  destruct (os.MkdirAll (KubernetesAPIServerConfigDir constants) perm_0o755 w)
    as [[e|[]] w1] eqn:Em.
  - eexists _, w1. split_and!.
    + apply bind_Return. unfold orReturn. by rewrite Em.
    + eapply changesWithin_weaken; [|eapply MkdirAll_changesWithin, Em].
      intros p Hp. by left.
    + intros w1' w2 [=].
  - assert (changesWithin touched w w1) as Hw1.
    { eapply changesWithin_weaken; [|eapply MkdirAll_changesWithin, Em].
      intros p Hp. by left. }
    erewrite bind_Next; [|unfold orReturn; by rewrite Em].
    destruct (renderConfigFile serializer_Encode apiPod admissionFile w1)
      as [[[]| |e] w2] eqn:Ea.
    + assert (changesWithin touched w w2) as Hw2.
      { eapply changesWithin_trans; [exact Hw1|].
        eapply changesWithin_weaken;
          [|eapply (renderConfigFile_changesWithin serializer_Encode apiPod admissionFile),
              Ea].
        - intros p ->. by right.
        - apply respects_pure, sameFS_refl. }
      exists auditError, w2. split_and!.
      * erewrite bind_Next; [|exact Ea]. simpl.
        apply bind_Return. unfold renderConfigFile. apply bind_Return.
        unfold orReturn, auditPolicyConfig, pure. simpl. by rewrite audit_fails.
      * exact Hw2.
      * intros w1' w2' [= <-]. rewrite Ea. by intros [= <-].
    + by apply renderConfigFile_not_Continue in Ea.
    + exists e, w2. split_and!.
      * by apply bind_Return.
      * eapply changesWithin_trans; [exact Hw1|].
        eapply changesWithin_weaken;
          [|eapply (renderConfigFile_changesWithin serializer_Encode apiPod admissionFile),
              Ea].
        -- intros p ->. by right.
        -- apply respects_pure, sameFS_refl.
      * intros w1' w2' [= <-]. rewrite Ea. intros [=].
Qed.

End AuditFailure.

Lemma Join_not_prefix (dir : path) (name : string) :
  ¬ filepath.Join dir name `prefix_of` dir.
Proof.
  unfold filepath.Join. intros H. apply prefix_length in H.
  rewrite length_app in H. simpl in H. lia.
Qed.

Lemma Join_inj (dir dir' : path) (name name' : string) :
  filepath.Join dir name = filepath.Join dir' name' → dir = dir' ∧ name = name'.
Proof. unfold filepath.Join. apply app_inj_tail. Qed.

Lemma prefix_of_Join (dir dir' : path) (name : string) :
  filepath.Join dir name `prefix_of` dir' → dir `prefix_of` dir'.
Proof.
  intros H. transitivity (filepath.Join dir name); [|done].
  unfold filepath.Join. by apply prefix_app_r.
Qed.

(** C2, as the code has it: when the five resources are in the store and
    the audit payload does not convert, the pass returns an error and the
    [ConfigStatus] stays as it was; in the API server directory nothing
    but [admission-control-config.yaml] can have changed, and nothing
    changes in a scheduler directory that lies outside the path of the
    API server directory.  The admission file is rendered before the
    audit policy is converted: when the directory and that file go
    through, the error is the schema error of the audit policy and the
    admission file is on disk. *)
Theorem C2_audit_failure_aborts_the_pass
    (constants : Constants) (json_Marshal : Payload → Result bytes)
    (serializer_Encode : Object → Result bytes) (w : World)
    admissionRes auditRes structuredAuthNRes structuredAuthZRes kubeSchedulerRes
    (err0 : error) :
  AdmissionControlConfig (store w) = Ok admissionRes →
  AuditPolicyConfig (store w) = Ok auditRes →
  StructuredAuthenticationConfig (store w) = Ok structuredAuthNRes →
  StructuredAuthorizationConfig (store w) = Ok structuredAuthZRes →
  SchedulerConfig (store w) = Ok kubeSchedulerRes →
  FromUnstructuredWithValidation (AuditPolicyConfigSpec.Config (TypedSpec auditRes))
    (structFromUnstructured Policy.fields) true = Err err0 →
  ∃ err w',
    iteration constants json_Marshal serializer_Encode w = (Return err, w') ∧
    ConfigStatus (store w') = ConfigStatus (store w) ∧
    (∀ name,
       name ≠ "admission-control-config.yaml" →
       fs w' !! filepath.Join (KubernetesAPIServerConfigDir constants) name
       = fs w !! filepath.Join (KubernetesAPIServerConfigDir constants) name) ∧
    (¬ KubernetesSchedulerConfigDir constants `prefix_of` KubernetesAPIServerConfigDir constants →
     ∀ name,
       fs w' !! filepath.Join (KubernetesSchedulerConfigDir constants) name
       = fs w !! filepath.Join (KubernetesSchedulerConfigDir constants) name) ∧
    (∀ w1 w2,
       os.MkdirAll (KubernetesAPIServerConfigDir constants) perm_0o755 w = (Ok tt, w1) →
       renderConfigFile serializer_Encode
         (apiServerPod constants json_Marshal (TypedSpec admissionRes) (TypedSpec auditRes)
            (apiServerConfigs (Some (TypedSpec structuredAuthNRes))
               (Some (TypedSpec structuredAuthZRes))))
         {| filename := "admission-control-config.yaml";
            f := admissionControlConfig json_Marshal (TypedSpec admissionRes) |} w1
       = (Next tt, w2) →
       err = Errorf "error generating configuration %q for %q: %w"
               ["auditpolicy.yaml"; "kube-apiserver"]
               (Errorf "error unmarshaling audit policy configuration: %w" [] err0) ∧
       w' = w2 ∧
       ∃ buf,
         holds (filepath.Join (KubernetesAPIServerConfigDir constants)
                  "admission-control-config.yaml") buf w').
Proof.
  intros Ha Hb Hc Hd He Hfail.
  destruct (apiServerPod_aborts constants json_Marshal serializer_Encode
              (TypedSpec admissionRes) (TypedSpec auditRes)
              (apiServerConfigs (Some (TypedSpec structuredAuthNRes))
                 (Some (TypedSpec structuredAuthZRes)))
              err0 Hfail w) as (err & w' & Hpod & Hch & Hreach).
  assert (forRange
            (pods constants json_Marshal (TypedSpec admissionRes) (TypedSpec auditRes)
               (apiServerConfigs (Some (TypedSpec structuredAuthNRes))
                  (Some (TypedSpec structuredAuthZRes)))
               (TypedSpec kubeSchedulerRes))
            (renderPod serializer_Encode) w = (Return err, w')) as Hpods.
  { unfold pods. simpl. by apply bind_Return. }
  exists err, w'. split_and!.
  - rewrite (iteration_after_reads _ _ _ _ _ _ _ _ _ Ha Hb Hc Hd He).
    by apply bind_Return.
  - apply pods_sameStore in Hpods. unfold sameStore in Hpods. by rewrite Hpods.
  - intros name Hname. apply Hch. intros [Hpre|Heq].
    + by apply Join_not_prefix in Hpre.
    + apply Join_inj in Heq as [_ Heq]. done.
  - intros Hout name. apply Hch. intros [Hpre|Heq].
    + by apply prefix_of_Join in Hpre.
    + apply Join_inj in Heq as [Heq _]. apply Hout. by rewrite Heq.
  - intros w1 w2 Hm Hr. destruct (Hreach w1 w2 Hm Hr) as [-> ->].
    split_and!; [done|done|].
    apply renderConfigFile_holds in Hr as (obj & buf & w0 & _ & _ & Hh).
    by exists buf.
Qed.

Lemma C2_audit_failure_aborts_the_pass_witness :
  FromUnstructuredWithValidation [("rules", VStr "all")]
    (structFromUnstructured Policy.fields) true
  = Err (ErrConvert "cannot restore slice from") ∧
  ∃ err w',
    iteration talosConstants sampleMarshal sampleEncode (worldOf storeWithBadAudit)
    = (Return err, w') ∧
    ConfigStatus (store w') = None ∧
    ∀ name,
      fs w' !! filepath.Join (KubernetesSchedulerConfigDir talosConstants) name = None.
Proof.
  split; [reflexivity|].
  destruct (C2_audit_failure_aborts_the_pass talosConstants sampleMarshal sampleEncode
              (worldOf storeWithBadAudit) _ _ _ _ _ _
              eq_refl eq_refl eq_refl eq_refl eq_refl eq_refl)
    as (err & w' & Hrun & Hstatus & _ & Hsched & _).
  exists err, w'. split_and!; [exact Hrun|exact Hstatus|].
  intros name. rewrite Hsched; [reflexivity|].
  intros [k Hk]. discriminate Hk.
Defined.

(** C2 as it is written fails on the API server directory: with an audit
    policy that does not convert, the pass has already written
    [admission-control-config.yaml] when it aborts. *)
Lemma C2_admission_file_counterexample :
  ¬ (∀ (w : World) auditRes err0,
       AuditPolicyConfig (store w) = Ok auditRes →
       FromUnstructuredWithValidation (AuditPolicyConfigSpec.Config (TypedSpec auditRes))
         (structFromUnstructured Policy.fields) true = Err err0 →
       ∃ err w',
         iteration talosConstants sampleMarshal sampleEncode w = (Return err, w') ∧
         (∀ name,
            fs w' !! filepath.Join (KubernetesAPIServerConfigDir talosConstants) name
            = fs w !! filepath.Join (KubernetesAPIServerConfigDir talosConstants) name) ∧
         (∀ name,
            fs w' !! filepath.Join (KubernetesSchedulerConfigDir talosConstants) name
            = fs w !! filepath.Join (KubernetesSchedulerConfigDir talosConstants) name) ∧
         ConfigStatus (store w') = ConfigStatus (store w)).
Proof.
  intros H.
  destruct (H (worldOf storeWithBadAudit) _ _ eq_refl eq_refl)
    as (err & w' & Hrun & Hapi & _).
  specialize (Hapi "admission-control-config.yaml").
  apply (f_equal snd) in Hrun. cbn [snd] in Hrun. rewrite <- Hrun in Hapi.
  vm_compute in Hapi. discriminate Hapi.
Qed.

(** ** An admission resource without plugins *)

(** The optional files: each one is there only for a payload that is not
    empty. *)
Lemma apiServerConfigs_elem structuredAuthNConfig structuredAuthZConfig cf :
  cf ∈ apiServerConfigs structuredAuthNConfig structuredAuthZConfig →
  (filename cf = "authentication-config.yaml" ∧
   ∃ c, structuredAuthNConfig = Some c ∧
        StructuredAuthenticationConfigSpec.Config c ≠ [] ∧
        f cf = structuredAuthenticationConfig c) ∨
  (filename cf = "authorization-config.yaml" ∧
   ∃ c, structuredAuthZConfig = Some c ∧
        StructuredAuthorizationConfigSpec.Config c ≠ [] ∧
        f cf = structuredAuthorizationConfig c).
Proof.
  unfold apiServerConfigs.
  destruct structuredAuthNConfig as [[l1]|], structuredAuthZConfig as [[l2]|]; simpl;
    try destruct l1 as [|x1 l1]; try destruct l2 as [|x2 l2]; simpl; intros H;
    repeat (apply elem_of_cons in H as [->|H];
            [simpl; first [left; split; [done|]; by eexists
                          |right; split; [done|]; by eexists]|]);
    by apply elem_of_nil in H.
Qed.

Section EmptyPluginList.

Variable constants : Constants.
Variable json_Marshal : Payload → Result bytes.
Variable serializer_Encode : Object → Result bytes.

Local Abbreviation admissionPath :=
  (filepath.Join (KubernetesAPIServerConfigDir constants) "admission-control-config.yaml").

(** Once the admission file holds its bytes, the rest of the pass leaves
    them there. *)
Lemma later_files_keep_admission adm aud an az buf cfs :
  (∀ cf, cf ∈ cfs →
     cf ∈ configs (apiServerPod constants json_Marshal adm aud (apiServerConfigs an az)) ∧
     filename cf ≠ "admission-control-config.yaml") →
  respects (keeps admissionPath buf)
    (forRange cfs
       (renderConfigFile serializer_Encode
          (apiServerPod constants json_Marshal adm aud (apiServerConfigs an az)))).
Proof.
  intros Hcfs. apply respects_forRange; [apply keeps_refl|apply keeps_trans|].
  intros cf Hcf. destruct (Hcfs cf Hcf) as [Hin Hname].
  apply renderConfigFile_respects.
  - apply keeps_refl.
  - apply keeps_trans.
  - apply (configs_respect constants json_Marshal (keeps admissionPath buf)
             (keeps_refl _ _) (keeps_trans _ _)) with
      (adm := adm) (aud := aud) (an := an) (az := az)
      (sch := {| SchedulerConfigSpec.Config := [] |})
      (p := apiServerPod constants json_Marshal adm aud (apiServerConfigs an az));
      [|unfold pods; left|exact Hin].
    intros a. eapply respects_weaken; [apply sameFS_keeps|apply Println_sameFS].
  - intros data. apply WriteFile_keeps. intros Heq.
    apply Join_inj in Heq as [_ Heq]. done.
  - apply Chown_keeps.
Qed.

Lemma schedulerPod_keeps_admission sch buf :
  respects (keeps admissionPath buf)
    (renderPod serializer_Encode (schedulerPod constants sch)).
Proof.
  apply renderPod_respects; [apply keeps_refl|apply keeps_trans|apply MkdirAll_keeps|].
  intros cf Hcf. simpl in Hcf.
  apply elem_of_cons in Hcf as [->|Hcf]; [|by apply elem_of_nil in Hcf].
  apply renderConfigFile_respects.
  - apply keeps_refl.
  - apply keeps_trans.
  - apply respects_pure, keeps_refl.
  - intros data. apply WriteFile_keeps. intros Heq.
    apply Join_inj in Heq as [_ Heq]. discriminate Heq.
  - apply Chown_keeps.
Qed.

End EmptyPluginList.

(** C10: for an admission resource whose plugin list is empty the
    converter succeeds, and its document has a plugin list that is empty
    and not nil; a pass that reaches the end of the body has written that
    document, encoded, to [admission-control-config.yaml].  An optional
    resource with an empty payload, in contrast, adds no file to the list
    of the API server. *)
Theorem C10_empty_plugin_list_is_rendered
    (constants : Constants) (json_Marshal : Payload → Result bytes)
    (serializer_Encode : Object → Result bytes)
    (w w' : World) (admissionRes : Resource AdmissionControlConfigSpec.t) :
  AdmissionControlConfig (store w) = Ok admissionRes →
  AdmissionControlConfigSpec.Config (TypedSpec admissionRes) = [] →
  iteration constants json_Marshal serializer_Encode w = (Next tt, w') →
  (∀ w0,
     admissionControlConfig json_Marshal (TypedSpec admissionRes) w0
     = (Ok admissionConfigurationWithoutPlugins, w0)) ∧
  (∃ buf,
     serializer_Encode admissionConfigurationWithoutPlugins = Ok buf ∧
     holds (filepath.Join (KubernetesAPIServerConfigDir constants)
              "admission-control-config.yaml") buf w') ∧
  (∀ structuredAuthNConfig structuredAuthZConfig cf,
     StructuredAuthenticationConfigSpec.Config structuredAuthNConfig = [] →
     cf ∈ apiServerConfigs (Some structuredAuthNConfig) structuredAuthZConfig →
     filename cf ≠ "authentication-config.yaml") ∧
  (∀ structuredAuthNConfig structuredAuthZConfig cf,
     StructuredAuthorizationConfigSpec.Config structuredAuthZConfig = [] →
     cf ∈ apiServerConfigs structuredAuthNConfig (Some structuredAuthZConfig) →
     filename cf ≠ "authorization-config.yaml").
Proof.
  intros Ha Hempty Hrun.
  assert (∀ w0,
            admissionControlConfig json_Marshal (TypedSpec admissionRes) w0
            = (Ok admissionConfigurationWithoutPlugins, w0)) as Hconv.
  { intros w0. unfold admissionControlConfig. by rewrite Hempty. }
  split_and!.
  - exact Hconv.
  - apply iteration_inv_Next in Hrun
      as (adm & aud & an & az & sch & w1 & Ha' & _ & _ & _ & _ & Hpods & ->).
    rewrite Ha in Ha'. injection Ha' as <-.
    unfold pods in Hpods.
    apply forRange_cons_inv_Next in Hpods as (wa & Hapi & Hsched).
    apply forRange_cons_inv_Next in Hsched as (wb & Hsched & Hend).
    apply forRange_nil_inv in Hend as [_ ->].
    unfold renderPod in Hapi.
    apply bind_inv_Next in Hapi as ([] & w0 & _ & Hfiles).
    apply forRange_cons_inv_Next in Hfiles as (wc & Hadm & Hrest).
    apply renderConfigFile_holds in Hadm as (obj & buf & w0' & Hf & He & Hh).
    cbn [f] in Hf. rewrite Hconv in Hf. injection Hf as <- <-.
    exists buf. split; [exact He|].
    eapply (later_files_keep_admission constants json_Marshal serializer_Encode) in Hrest.
    + eapply schedulerPod_keeps_admission in Hsched.
      apply Hsched in Hrest; [|exact Hh].
      destruct Hrest as (perm & uid & gid & Hl). by exists perm, uid, gid.
    + intros cf Hcf. split.
      * simpl. by right.
      * apply elem_of_cons in Hcf as [->|Hcf]; [done|].
        apply apiServerConfigs_elem in Hcf as [[-> _]|[-> _]]; done.
  - intros c az cf Hc Hcf Hname.
    apply apiServerConfigs_elem in Hcf as [[_ (c' & [= <-] & Hne & _)]|[Hname' _]].
    + done.
    + rewrite Hname in Hname'. discriminate Hname'.
  - intros an c cf Hc Hcf Hname.
    apply apiServerConfigs_elem in Hcf as [[Hname' _]|[_ (c' & [= <-] & Hne & _)]].
    + rewrite Hname in Hname'. discriminate Hname'.
    + done.
Qed.

Lemma C10_empty_plugin_list_is_rendered_witness :
  fst (iteration talosConstants sampleMarshal sampleEncode (worldOf storeWithoutPlugins))
  = Next tt ∧
  ∃ buf,
    sampleEncode admissionConfigurationWithoutPlugins = Ok buf ∧
    holds (filepath.Join (KubernetesAPIServerConfigDir talosConstants)
             "admission-control-config.yaml") buf
      (snd (iteration talosConstants sampleMarshal sampleEncode (worldOf storeWithoutPlugins))).
Proof.
  assert (fst (iteration talosConstants sampleMarshal sampleEncode
                 (worldOf storeWithoutPlugins)) = Next tt) as H
    by (vm_compute; reflexivity).
  split; [exact H|].
  apply (C10_empty_plugin_list_is_rendered talosConstants sampleMarshal sampleEncode
           (worldOf storeWithoutPlugins) _ _ eq_refl eq_refl (run_result _ _ _ H)).
Defined.

(** * Further properties of the loop *)

(** ** The reads *)

(** A read that fails first decides how the pass ends: a resource that is
    not found makes the body leave by [continue], any other error makes
    [Run] return it wrapped in the message of that read; in both cases
    nothing has been done to the world. *)
Theorem X1_first_failed_read_ends_the_pass
    (constants : Constants) (json_Marshal : Payload → Result bytes)
    (serializer_Encode : Object → Result bytes) (w : World)
    (i : nat) (format : string) (err : error) :
  reads (store w) !! i = Some (format, Some err) →
  (∀ (j : nat) format' o, (j < i)%nat → reads (store w) !! j = Some (format', o) → o = None) →
  iteration constants json_Marshal serializer_Encode w
  = (if IsNotFoundError err then Continue else Return (Errorf format [] err), w).
Proof.
  unfold reads, iteration, mbind, Body_bind, getOrContinue, ReaderGetByID.
  destruct (AdmissionControlConfig (store w)) as [e1|r1];
    destruct (AuditPolicyConfig (store w)) as [e2|r2];
    destruct (StructuredAuthenticationConfig (store w)) as [e3|r3];
    destruct (StructuredAuthorizationConfig (store w)) as [e4|r4];
    destruct (SchedulerConfig (store w)) as [e5|r5];
    intros Hi Hbefore;
    destruct i as [|[|[|[|[|i]]]]]; simpl in Hi; try discriminate Hi;
    injection Hi as <- <-;
    try (pose proof (Hbefore 0%nat _ _ ltac:(lia) eq_refl) as Hc; discriminate Hc);
    try (pose proof (Hbefore 1%nat _ _ ltac:(lia) eq_refl) as Hc; discriminate Hc);
    try (pose proof (Hbefore 2%nat _ _ ltac:(lia) eq_refl) as Hc; discriminate Hc);
    try (pose proof (Hbefore 3%nat _ _ ltac:(lia) eq_refl) as Hc; discriminate Hc);
    by destruct (IsNotFoundError _).
Qed.

Lemma X1_first_failed_read_ends_the_pass_witness :
  reads storeWithoutAuthorization !! 3%nat
  = Some ("error getting structured authorization config resource: %w", Some ErrNotFound) ∧
  iteration talosConstants sampleMarshal sampleEncode (worldOf storeWithoutAuthorization)
  = (Continue, worldOf storeWithoutAuthorization).
Proof.
  split; [reflexivity|].
  apply (X1_first_failed_read_ends_the_pass talosConstants sampleMarshal sampleEncode
           (worldOf storeWithoutAuthorization) 3 _ ErrNotFound eq_refl).
  intros [|[|[|j]]] format' o Hj; [| | |lia]; by intros [= <- <-].
Defined.

(** Either the five reads succeed and the pass goes on to the pods, or
    the pass ends at a read, with the world untouched. *)
Lemma iteration_reads_cases constants json_Marshal serializer_Encode w :
  (∃ admissionRes auditRes structuredAuthNRes structuredAuthZRes kubeSchedulerRes,
     AdmissionControlConfig (store w) = Ok admissionRes ∧
     AuditPolicyConfig (store w) = Ok auditRes ∧
     StructuredAuthenticationConfig (store w) = Ok structuredAuthNRes ∧
     StructuredAuthorizationConfig (store w) = Ok structuredAuthZRes ∧
     SchedulerConfig (store w) = Ok kubeSchedulerRes) ∨
  iteration constants json_Marshal serializer_Encode w = (Continue, w) ∨
  (∃ err, iteration constants json_Marshal serializer_Encode w = (Return err, w)).
Proof.
  unfold iteration, mbind, Body_bind, getOrContinue, ReaderGetByID.
  destruct (AdmissionControlConfig (store w)) as [e1|r1];
    [right; destruct (IsNotFoundError e1); [by left|right; by eexists]|].
  destruct (AuditPolicyConfig (store w)) as [e2|r2];
    [right; destruct (IsNotFoundError e2); [by left|right; by eexists]|].
  destruct (StructuredAuthenticationConfig (store w)) as [e3|r3];
    [right; destruct (IsNotFoundError e3); [by left|right; by eexists]|].
  destruct (StructuredAuthorizationConfig (store w)) as [e4|r4];
    [right; destruct (IsNotFoundError e4); [by left|right; by eexists]|].
  destruct (SchedulerConfig (store w)) as [e5|r5];
    [right; destruct (IsNotFoundError e5); [by left|right; by eexists]|].
  left. by exists r1, r2, r3, r4, r5.
Qed.

Lemma forRange_not_Continue {A : Type} (l : list A) (body : A → Body unit) w w' :
  (∀ x w1 w2, body x w1 ≠ (Continue, w2)) →
  forRange l body w ≠ (Continue, w').
Proof.
  intros Hb. revert w w'. induction l as [|x l IH]; intros w w'; simpl.
  - discriminate.
  - apply bind_not_Continue; [intros; apply Hb|]. intros _ w1 w2. apply IH.
Qed.

Lemma renderPod_not_Continue serializer_Encode p w w' :
  renderPod serializer_Encode p w ≠ (Continue, w').
Proof.
  unfold renderPod.
  apply bind_not_Continue; [intros; apply orReturn_not_Continue|]. intros _ w1 w2.
  apply forRange_not_Continue. intros. apply renderConfigFile_not_Continue.
Qed.

Lemma sameControl_refl w : sameControl w w.
Proof. done. Qed.

Lemma sameControl_trans w1 w2 w3 :
  sameControl w1 w2 → sameControl w2 w3 → sameControl w1 w3.
Proof. unfold sameControl. intros [-> ->] [-> ->]. done. Qed.

Lemma pods_sameControl constants json_Marshal serializer_Encode adm aud an az sch :
  respects sameControl
    (forRange (pods constants json_Marshal adm aud (apiServerConfigs an az) sch)
       (renderPod serializer_Encode)).
Proof.
  apply pods_respect.
  - apply sameControl_refl.
  - apply sameControl_trans.
  - by intros a w r w' [= <- <-].
  - intros dir w r w' H. by destruct (MkdirAll_rest _ _ _ _ _ H) as [m ->].
  - intros name data w r w' H. by destruct (WriteFile_rest _ _ _ _ _ _ H) as [->|[m ->]].
  - intros name uid gid w r w' H. by destruct (Chown_rest _ _ _ _ _ _ H) as [->|[m ->]].
Qed.

(** How a pass that got through its reads ends. *)
Lemma iteration_after_reads_cases constants json_Marshal serializer_Encode w w' r
    admissionRes auditRes structuredAuthNRes structuredAuthZRes kubeSchedulerRes :
  AdmissionControlConfig (store w) = Ok admissionRes →
  AuditPolicyConfig (store w) = Ok auditRes →
  StructuredAuthenticationConfig (store w) = Ok structuredAuthNRes →
  StructuredAuthorizationConfig (store w) = Ok structuredAuthZRes →
  SchedulerConfig (store w) = Ok kubeSchedulerRes →
  iteration constants json_Marshal serializer_Encode w = (r, w') →
  (∃ err,
     r = Return err ∧
     forRange
       (pods constants json_Marshal (TypedSpec admissionRes) (TypedSpec auditRes)
          (apiServerConfigs (Some (TypedSpec structuredAuthNRes))
             (Some (TypedSpec structuredAuthZRes)))
          (TypedSpec kubeSchedulerRes))
       (renderPod serializer_Encode) w = (Return err, w')) ∨
  (r = Next tt ∧
   ∃ w1,
     forRange
       (pods constants json_Marshal (TypedSpec admissionRes) (TypedSpec auditRes)
          (apiServerConfigs (Some (TypedSpec structuredAuthNRes))
             (Some (TypedSpec structuredAuthZRes)))
          (TypedSpec kubeSchedulerRes))
       (renderPod serializer_Encode) w = (Next tt, w1) ∧
     fs w' = fs w1 ∧ stdout w' = stdout w1).
Proof.
  intros Ha Hb Hc Hd He.
  rewrite (iteration_after_reads _ _ _ _ _ _ _ _ _ Ha Hb Hc Hd He).
  unfold mbind at 1, Body_bind at 1.
  destruct (forRange _ _ w) as [[[]| |err] w1] eqn:Hpods.
  - intros [= <- <-]. right. split; [done|]. by exists w1.
  - by apply forRange_not_Continue in Hpods; [|intros; apply renderPod_not_Continue].
  - intros [= <- <-]. left. by exists err.
Qed.

(** ** What only a complete pass does *)

(** The status and the restart backoff are touched by a pass that reaches
    the end of the body, and by no other: a pass left by [continue] leaves
    the world as it was, a pass that returns an error leaves the store and
    the backoff as they were, and a complete pass marks the status ready
    and resets the backoff once. *)
Theorem X2_only_a_complete_pass_publishes
    (constants : Constants) (json_Marshal : Payload → Result bytes)
    (serializer_Encode : Object → Result bytes) (w w' : World) (r : Step unit) :
  iteration constants json_Marshal serializer_Encode w = (r, w') →
  match r with
  | Continue => w' = w
  | Return _ => store w' = store w ∧ backoffResets w' = backoffResets w
  | Next _ =>
      backoffResets w' = S (backoffResets w) ∧
      ConfigStatusSpec.Ready <$> ConfigStatus (store w') = Some true
  end.
Proof.
  intros H.
  destruct (iteration_reads_cases constants json_Marshal serializer_Encode w)
    as [(adm & aud & an & az & sch & Ha & Hb & Hc & Hd & He)|[Hs|[err Hs]]].
  - destruct r as [[]| |err].
    + apply iteration_inv_Next in H
        as (adm' & aud' & an' & az' & sch' & w1 & _ & _ & _ & _ & _ & Hpods & ->).
      apply pods_sameControl in Hpods as [_ Hbk]. simpl. by rewrite Hbk.
    + destruct (iteration_after_reads_cases _ _ _ _ _ _ _ _ _ _ _ Ha Hb Hc Hd He H)
        as [(err & [=] & _)|[[=] _]].
    + destruct (iteration_after_reads_cases _ _ _ _ _ _ _ _ _ _ _ Ha Hb Hc Hd He H)
        as [(err' & [= <-] & Hpods)|[[=] _]].
      by apply pods_sameControl in Hpods.
  - rewrite Hs in H. by injection H as <- <-.
  - rewrite Hs in H. by injection H as <- <-.
Qed.

Lemma X2_only_a_complete_pass_publishes_witness :
  fst (iteration talosConstants sampleMarshal sampleEncode (worldOf storeWithBadAudit))
  = Return (Errorf "error generating configuration %q for %q: %w"
              ["auditpolicy.yaml"; "kube-apiserver"]
              (Errorf "error unmarshaling audit policy configuration: %w" []
                 (ErrConvert "cannot restore slice from"))) ∧
  store (snd (iteration talosConstants sampleMarshal sampleEncode (worldOf storeWithBadAudit)))
  = storeWithBadAudit ∧
  backoffResets
    (snd (iteration talosConstants sampleMarshal sampleEncode (worldOf storeWithBadAudit)))
  = 0%nat.
Proof.
  assert (fst (iteration talosConstants sampleMarshal sampleEncode
                 (worldOf storeWithBadAudit))
          = Return (Errorf "error generating configuration %q for %q: %w"
                      ["auditpolicy.yaml"; "kube-apiserver"]
                      (Errorf "error unmarshaling audit policy configuration: %w" []
                         (ErrConvert "cannot restore slice from")))) as H
    by (vm_compute; reflexivity).
  split; [exact H|].
  exact (X2_only_a_complete_pass_publishes talosConstants sampleMarshal sampleEncode
           (worldOf storeWithBadAudit) _ _ (run_result _ _ _ H)).
Defined.

(** ** The whole loop *)

Lemma Run_modesKept constants json_Marshal serializer_Encode signals w out w' :
  Run constants json_Marshal serializer_Encode signals w = (out, w') →
  modesKept w w'.
Proof.
  revert w. induction signals as [|[|change] rest IH]; intros w; simpl.
  - intros [= <- <-]. apply modesKept_refl.
  - intros [= <- <-]. apply modesKept_refl.
  - destruct (iteration _ _ _ (setStore (change (store w)) w)) as [r w1] eqn:E.
    apply iteration_modesKept in E.
    assert (modesKept w w1) as Hw1 by exact E.
    destruct r as [[]| |err].
    + intros H. eapply modesKept_trans; [exact Hw1|by apply IH].
    + intros H. eapply modesKept_trans; [exact Hw1|by apply IH].
    + intros [= <- <-]. exact Hw1.
Qed.

(** However long [Run] goes on and however the store changes between its
    passes, it removes nothing: a path that holds a file keeps holding a
    file of the same mode, and a path that holds a directory keeps
    holding a directory of the same mode. *)
Theorem X3_run_never_removes_a_node
    (constants : Constants) (json_Marshal : Payload → Result bytes)
    (serializer_Encode : Object → Result bytes)
    (signals : list signal) (w w' : World) (out : outcome) (p : path) :
  Run constants json_Marshal serializer_Encode signals w = (out, w') →
  (∀ data perm uid gid,
     fs w !! p = Some (File data perm uid gid) →
     ∃ data' uid' gid', fs w' !! p = Some (File data' perm uid' gid')) ∧
  (∀ perm uid gid,
     fs w !! p = Some (Dir perm uid gid) →
     ∃ uid' gid', fs w' !! p = Some (Dir perm uid' gid')).
Proof.
  intros H. apply Run_modesKept in H. specialize (H p). split.
  - intros data perm uid gid Hl. rewrite Hl in H.
    destruct (fs w' !! p) as [[perm' uid' gid'|data' perm' uid' gid']|]; simpl in H;
      [done| |done].
    subst. by eexists _, _, _.
  - intros perm uid gid Hl. rewrite Hl in H.
    destruct (fs w' !! p) as [[perm' uid' gid'|data' perm' uid' gid']|]; simpl in H;
      [|done|done].
    subst. by eexists _, _.
Qed.

Lemma X3_run_never_removes_a_node_witness :
  fst (Run talosConstants sampleMarshal sampleEncode
         [Event (λ st, st); Event (λ st, st); CtxDone] worldWithStaleFile)
  = Returned None ∧
  ∃ data' uid' gid',
    fs (snd (Run talosConstants sampleMarshal sampleEncode
               [Event (λ st, st); Event (λ st, st); CtxDone] worldWithStaleFile))
      !! filepath.Join (KubernetesAPIServerConfigDir talosConstants)
           "authentication-config.yaml"
    = Some (File data' perm_0o400 uid' gid').
Proof.
  split; [vm_compute; reflexivity|].
  apply (X3_run_never_removes_a_node talosConstants sampleMarshal sampleEncode
           [Event (λ st, st); Event (λ st, st); CtxDone] worldWithStaleFile _ _
           (filepath.Join (KubernetesAPIServerConfigDir talosConstants)
              "authentication-config.yaml")
           (surjective_pairing _))
    with (data := list_byte_of_string "stale") (uid := 65534) (gid := 65534).
  vm_compute. reflexivity.
Defined.

(** ** The admission converter on a plugin it cannot marshal *)

Lemma admissionPlugins_Err json_Marshal plugins cfg e :
  admissionPlugins json_Marshal plugins cfg = Err e →
  ∃ before plugin after err,
    plugins = before ++ plugin :: after ∧
    Forall (λ q, ∃ raw, json_Marshal (AdmissionPluginSpec.Configuration q) = Ok raw) before ∧
    json_Marshal (AdmissionPluginSpec.Configuration plugin) = Err err ∧
    e = Errorf "error marshaling configuration for plugin %q: %w"
          [AdmissionPluginSpec.Name plugin] err.
Proof.
  revert cfg. induction plugins as [|plugin rest IH]; intros cfg; simpl; [discriminate|].
  destruct (json_Marshal (AdmissionPluginSpec.Configuration plugin)) as [err|raw] eqn:E.
  - intros [= <-]. exists [], plugin, rest, err. split_and!; [done|constructor|done|done].
  - intros H. apply IH in H as (before & q & after & err & -> & Hb & Hq & ->).
    exists (plugin :: before), q, after, err. split_and!; [done| |done|done].
    constructor; [by exists raw|done].
Qed.

(** When [admissionControlConfig] fails, it is on the first plugin, in
    the order of the list, whose configuration [json.Marshal] refuses: the
    error carries the name of that plugin and wraps the error of
    [json.Marshal], and the plugins after it are not looked at. *)
Theorem X4_admission_fails_on_first_refused_plugin
    (json_Marshal : Payload → Result bytes) (spec : AdmissionControlConfigSpec.t)
    (w w' : World) (e : error) :
  admissionControlConfig json_Marshal spec w = (Err e, w') →
  w' = w ∧
  ∃ before plugin after err,
    AdmissionControlConfigSpec.Config spec = before ++ plugin :: after ∧
    Forall (λ q, ∃ raw, json_Marshal (AdmissionPluginSpec.Configuration q) = Ok raw) before ∧
    json_Marshal (AdmissionPluginSpec.Configuration plugin) = Err err ∧
    e = Errorf "error marshaling configuration for plugin %q: %w"
          [AdmissionPluginSpec.Name plugin] err.
Proof.
  unfold admissionControlConfig, pure. intros [= H <-]. split; [done|].
  unfold mbind, Result_bind in H.
  destruct (admissionPlugins _ _ _) as [err|cfg] eqn:E; [|discriminate].
  injection H as <-. by eapply admissionPlugins_Err.
Qed.

Lemma X4_admission_fails_on_first_refused_plugin_witness :
  fst (admissionControlConfig marshalRefusingBar
         {| AdmissionControlConfigSpec.Config := samplePlugins |} (worldOf sampleStore))
  = Err (Errorf "error marshaling configuration for plugin %q: %w" ["Bar"]
           (ErrEncode "json: unsupported value")) ∧
  ∃ before plugin after err,
    samplePlugins = before ++ plugin :: after ∧
    Forall (λ q, ∃ raw, marshalRefusingBar (AdmissionPluginSpec.Configuration q) = Ok raw)
      before ∧
    marshalRefusingBar (AdmissionPluginSpec.Configuration plugin) = Err err ∧
    Errorf "error marshaling configuration for plugin %q: %w" ["Bar"]
      (ErrEncode "json: unsupported value")
    = Errorf "error marshaling configuration for plugin %q: %w"
        [AdmissionPluginSpec.Name plugin] err.
Proof.
  split; [reflexivity|].
  apply (X4_admission_fails_on_first_refused_plugin marshalRefusingBar
           {| AdmissionControlConfigSpec.Config := samplePlugins |}
           (worldOf sampleStore) (worldOf sampleStore)).
  reflexivity.
Defined.

(** ** The files of the two pods *)

(** The entries of the two lists, one by one. *)
Lemma pods_elem constants json_Marshal adm aud an az sch p cf :
  p ∈ pods constants json_Marshal adm aud (apiServerConfigs an az) sch →
  cf ∈ configs p →
  (p = apiServerPod constants json_Marshal adm aud (apiServerConfigs an az) ∧
   ((filename cf = "admission-control-config.yaml" ∧
     f cf = admissionControlConfig json_Marshal adm) ∨
    (filename cf = "auditpolicy.yaml" ∧ f cf = auditPolicyConfig aud) ∨
    (filename cf = "authentication-config.yaml" ∧
     ∃ c, an = Some c ∧ StructuredAuthenticationConfigSpec.Config c ≠ [] ∧
          f cf = structuredAuthenticationConfig c) ∨
    (filename cf = "authorization-config.yaml" ∧
     ∃ c, az = Some c ∧ StructuredAuthorizationConfigSpec.Config c ≠ [] ∧
          f cf = structuredAuthorizationConfig c))) ∨
  (p = schedulerPod constants sch ∧
   filename cf = "scheduler-config.yaml" ∧ f cf = schedulerConfig constants sch).
Proof.
  unfold pods. intros Hp Hcf.
  apply elem_of_cons in Hp as [->|Hp].
  - left. split; [done|]. cbn [configs apiServerPod] in Hcf.
    apply elem_of_app in Hcf as [Hcf|Hcf].
    + apply elem_of_cons in Hcf as [->|Hcf]; [by left|].
      apply elem_of_cons in Hcf as [->|Hcf]; [right; by left|].
      by apply elem_of_nil in Hcf.
    + apply apiServerConfigs_elem in Hcf as [H|H]; [right; right; by left|by do 3 right].
  - apply elem_of_cons in Hp as [->|Hp]; [|by apply elem_of_nil in Hp].
    right. split; [done|]. cbn [configs schedulerPod] in Hcf.
    apply elem_of_cons in Hcf as [->|Hcf]; [done|by apply elem_of_nil in Hcf].
Qed.

(** Each of the five closures is a function of its spec, and prints at
    most. *)
Lemma setStdout_id w : setStdout (stdout w) w = w.
Proof. by destruct w. Qed.

Lemma pure_printsAtMost (res : Result Object) : printsAtMost (pure res).
Proof. exists res. intros w. exists (stdout w). by rewrite setStdout_id. Qed.

Lemma configs_printAtMost constants json_Marshal adm aud an az sch p cf :
  p ∈ pods constants json_Marshal adm aud (apiServerConfigs an az) sch →
  cf ∈ configs p →
  printsAtMost (f cf).
Proof.
  intros Hp Hcf.
  destruct (configs_converters _ _ _ _ _ _ _ _ _ Hp Hcf)
    as [[s ->]|[[s ->]|[[s ->]|[[s ->]|[s ->]]]]];
    try apply pure_printsAtMost.
  unfold structuredAuthenticationConfig, printsAtMost.
  eexists. intros w. eexists. reflexivity.
Qed.

Lemma printsAtMost_sameFS m : printsAtMost m → respects sameFS m.
Proof.
  intros [res Hm] w r w' H. destruct (Hm w) as [out Hout].
  rewrite Hout in H. by injection H as <- <-.
Qed.

Lemma printsAtMost_result m w w0 : printsAtMost m → fst (m w) = fst (m w0).
Proof.
  intros [res Hm]. destruct (Hm w) as [out ->], (Hm w0) as [out0 ->]. done.
Qed.

(** The loop over any list of pods, for a relation that the calls made
    for these pods respect. *)
Lemma forRange_pods_respects serializer_Encode (R : World → World → Prop) (ps : list pod) :
  (∀ w, R w w) →
  (∀ w1 w2 w3, R w1 w2 → R w2 w3 → R w1 w3) →
  (∀ p, p ∈ ps → respects R (os.MkdirAll (directory p) perm_0o755)) →
  (∀ p cf, p ∈ ps → cf ∈ configs p →
     respects R (f cf) ∧
     (∀ data,
        respects R (os.WriteFile (filepath.Join (directory p) (filename cf)) data perm_0o400)) ∧
     respects R (os.Chown (filepath.Join (directory p) (filename cf)) (uid p) (gid p))) →
  respects R (forRange ps (renderPod serializer_Encode)).
Proof.
  intros Hrefl Htrans Hm Hcf. apply respects_forRange; [done|done|].
  intros p Hp. apply renderPod_respects; [done|done|by apply Hm|].
  intros cf Hin. destruct (Hcf p cf Hp Hin) as (H1 & H2 & H3).
  by apply renderConfigFile_respects.
Qed.



(** ** What a pass touches *)

Lemma pods_changesWithin serializer_Encode (ps : list pod) :
  (∀ p cf, p ∈ ps → cf ∈ configs p → respects sameFS (f cf)) →
  respects (changesWithin (podPaths ps)) (forRange ps (renderPod serializer_Encode)).
Proof.
  intros Hf. apply forRange_pods_respects.
  - apply changesWithin_refl.
  - apply changesWithin_trans.
  - intros p Hp. eapply respects_weaken; [|apply MkdirAll_changesWithin].
    intros w w'. apply changesWithin_weaken. intros q Hq. exists p. split; [done|by left].
  - intros p cf Hp Hcf. split_and!.
    + eapply respects_weaken; [apply sameFS_changesWithin|by apply (Hf p cf)].
    + intros data. eapply respects_weaken; [|apply WriteFile_changesWithin].
      intros w w'. apply changesWithin_weaken. intros q ->.
      exists p. split; [done|]. right. by exists cf.
    + eapply respects_weaken; [|apply Chown_changesWithin].
      intros w w'. apply changesWithin_weaken. intros q ->.
      exists p. split; [done|]. right. by exists cf.
Qed.

(** What a pass does to the file system, it does while it loops over the
    pods. *)
Lemma iteration_changesWithin constants json_Marshal serializer_Encode w r w' :
  iteration constants json_Marshal serializer_Encode w = (r, w') →
  fs w' = fs w ∨
  ∃ adm aud an az sch,
    StructuredAuthenticationConfig (store w) = Ok an ∧
    StructuredAuthorizationConfig (store w) = Ok az ∧
    changesWithin
      (podPaths (pods constants json_Marshal adm aud
                   (apiServerConfigs (Some (TypedSpec an)) (Some (TypedSpec az))) sch))
      w w'.
Proof.
  intros H.
  destruct (iteration_reads_cases constants json_Marshal serializer_Encode w)
    as [(adm & aud & an & az & sch & Ha & Hb & Hc & Hd & He)|[Hs|[err Hs]]].
  - right. exists (TypedSpec adm), (TypedSpec aud), an, az, (TypedSpec sch).
    split_and!; [done|done|].
    assert (∀ p cf,
              p ∈ pods constants json_Marshal (TypedSpec adm) (TypedSpec aud)
                    (apiServerConfigs (Some (TypedSpec an)) (Some (TypedSpec az)))
                    (TypedSpec sch) →
              cf ∈ configs p → respects sameFS (f cf)) as Hf.
    { intros p cf Hp Hcf. eapply printsAtMost_sameFS, configs_printAtMost; done. }
    destruct (iteration_after_reads_cases _ _ _ _ _ _ _ _ _ _ _ Ha Hb Hc Hd He H)
      as [(err & _ & Hpods)|(_ & w1 & Hpods & Hfs & _)].
    + by eapply (pods_changesWithin serializer_Encode _ Hf).
    + apply (pods_changesWithin serializer_Encode _ Hf) in Hpods.
      intros q Hq. rewrite Hfs. by apply Hpods.
  - left. rewrite Hs in H. by injection H as <- <-.
  - left. rewrite Hs in H. by injection H as <- <-.
Qed.

(** A pass, however it ends, changes nothing outside the two
    configuration directories and the directories on the way to them, and
    inside them nothing but the five files it knows by name. *)
Theorem X6_pass_touches_only_its_own_paths
    (constants : Constants) (json_Marshal : Payload → Result bytes)
    (serializer_Encode : Object → Result bytes) (w w' : World) (r : Step unit) (q : path) :
  iteration constants json_Marshal serializer_Encode w = (r, w') →
  ¬ q `prefix_of` KubernetesAPIServerConfigDir constants →
  ¬ q `prefix_of` KubernetesSchedulerConfigDir constants →
  (∀ name,
     name ∈ ["admission-control-config.yaml"; "auditpolicy.yaml";
             "authentication-config.yaml"; "authorization-config.yaml"] →
     q ≠ filepath.Join (KubernetesAPIServerConfigDir constants) name) →
  q ≠ filepath.Join (KubernetesSchedulerConfigDir constants) "scheduler-config.yaml" →
  fs w' !! q = fs w !! q.
Proof.
  intros H Hapi Hsched Hfiles Hfile.
  destruct (iteration_changesWithin _ _ _ _ _ _ H)
    as [->|(adm & aud & an & az & sch & _ & _ & Hch)]; [done|].
  apply Hch. intros (p & Hp & Hq).
  destruct Hq as [Hq|(cf & Hcf & ->)].
  - unfold pods in Hp. apply elem_of_cons in Hp as [->|Hp]; [done|].
    apply elem_of_cons in Hp as [->|Hp]; [done|by apply elem_of_nil in Hp].
  - destruct (pods_elem _ _ _ _ _ _ _ _ _ Hp Hcf)
      as [[-> [[Hn _]|[[Hn _]|[[Hn _]|[Hn _]]]]]|(-> & Hn & _)]; rewrite Hn in *.
    + eapply (Hfiles "admission-control-config.yaml"); [by left|done].
    + eapply (Hfiles "auditpolicy.yaml"); [right; by left|done].
    + eapply (Hfiles "authentication-config.yaml"); [do 2 right; by left|done].
    + eapply (Hfiles "authorization-config.yaml"); [do 3 right; by left|done].
    + done.
Qed.

Lemma X6_pass_touches_only_its_own_paths_witness :
  fs (snd (iteration talosConstants sampleMarshal sampleEncode (worldOf storeWithOptional)))
    !! ["system"; "secrets"; "kubernetes"; "kube-scheduler"; "kubeconfig"]
  = fs (worldOf storeWithOptional)
      !! ["system"; "secrets"; "kubernetes"; "kube-scheduler"; "kubeconfig"].
Proof.
  apply (X6_pass_touches_only_its_own_paths talosConstants sampleMarshal sampleEncode
           (worldOf storeWithOptional) _ _ _ (surjective_pairing _)).
  - intros [k Hk]. discriminate Hk.
  - intros [k Hk]. discriminate Hk.
  - intros name _ Hn. discriminate Hn.
  - discriminate.
Defined.

(** An optional resource whose payload is empty, or which is not there,
    leaves its file alone: whatever was at
    [authentication-config.yaml] (or [authorization-config.yaml]) before
    the pass is there after it, a file of an earlier pass included.  The
    path must not lie on the way to the scheduler directory. *)
Theorem X7_empty_optional_payload_leaves_its_file
    (constants : Constants) (json_Marshal : Payload → Result bytes)
    (serializer_Encode : Object → Result bytes) (w w' : World) (r : Step unit) :
  iteration constants json_Marshal serializer_Encode w = (r, w') →
  ((∀ an, StructuredAuthenticationConfig (store w) = Ok an →
          StructuredAuthenticationConfigSpec.Config (TypedSpec an) = []) →
   ¬ filepath.Join (KubernetesAPIServerConfigDir constants) "authentication-config.yaml"
       `prefix_of` KubernetesSchedulerConfigDir constants →
   fs w' !! filepath.Join (KubernetesAPIServerConfigDir constants) "authentication-config.yaml"
   = fs w !! filepath.Join (KubernetesAPIServerConfigDir constants)
               "authentication-config.yaml") ∧
  ((∀ az, StructuredAuthorizationConfig (store w) = Ok az →
          StructuredAuthorizationConfigSpec.Config (TypedSpec az) = []) →
   ¬ filepath.Join (KubernetesAPIServerConfigDir constants) "authorization-config.yaml"
       `prefix_of` KubernetesSchedulerConfigDir constants →
   fs w' !! filepath.Join (KubernetesAPIServerConfigDir constants) "authorization-config.yaml"
   = fs w !! filepath.Join (KubernetesAPIServerConfigDir constants)
               "authorization-config.yaml").
Proof.
  intros H.
  destruct (iteration_changesWithin _ _ _ _ _ _ H)
    as [->|(adm & aud & an & az & sch & Han & Haz & Hch)]; [done|].
  split.
  - intros Hempty Hout. apply Hch. intros (p & Hp & Hq).
    destruct Hq as [Hq|(cf & Hcf & Hq)].
    + unfold pods in Hp. apply elem_of_cons in Hp as [->|Hp];
        [by apply Join_not_prefix in Hq|].
      apply elem_of_cons in Hp as [->|Hp]; [done|by apply elem_of_nil in Hp].
    + destruct (pods_elem _ _ _ _ _ _ _ _ _ Hp Hcf)
        as [[-> [[Hn _]|[[Hn _]|[[Hn (c & [= <-] & Hne & _)]|[Hn _]]]]]|(-> & Hn & _)];
        try (apply Join_inj in Hq as [_ Hq]; rewrite Hn in Hq; discriminate Hq).
      by apply Hne, Hempty.
  - intros Hempty Hout. apply Hch. intros (p & Hp & Hq).
    destruct Hq as [Hq|(cf & Hcf & Hq)].
    + unfold pods in Hp. apply elem_of_cons in Hp as [->|Hp];
        [by apply Join_not_prefix in Hq|].
      apply elem_of_cons in Hp as [->|Hp]; [done|by apply elem_of_nil in Hp].
    + destruct (pods_elem _ _ _ _ _ _ _ _ _ Hp Hcf)
        as [[-> [[Hn _]|[[Hn _]|[[Hn _]|[Hn (c & [= <-] & Hne & _)]]]]]|(-> & Hn & _)];
        try (apply Join_inj in Hq as [_ Hq]; rewrite Hn in Hq; discriminate Hq).
      by apply Hne, Hempty.
Qed.

Lemma X7_empty_optional_payload_leaves_its_file_witness :
  fs worldWithStaleFile
    !! filepath.Join (KubernetesAPIServerConfigDir talosConstants) "authentication-config.yaml"
  = Some (File (list_byte_of_string "stale") perm_0o400 65534 65534) ∧
  fst (iteration talosConstants sampleMarshal sampleEncode worldWithStaleFile) = Next tt ∧
  fs (snd (iteration talosConstants sampleMarshal sampleEncode worldWithStaleFile))
    !! filepath.Join (KubernetesAPIServerConfigDir talosConstants) "authentication-config.yaml"
  = fs worldWithStaleFile
      !! filepath.Join (KubernetesAPIServerConfigDir talosConstants)
           "authentication-config.yaml".
Proof.
  split; [vm_compute; reflexivity|].
  split; [vm_compute; reflexivity|].
  apply (X7_empty_optional_payload_leaves_its_file talosConstants sampleMarshal sampleEncode
           worldWithStaleFile _ _ (surjective_pairing _)).
  - intros an [= <-]. reflexivity.
  - intros [k Hk]. discriminate Hk.
Defined.

(** ** What a pass prints *)

Lemma sameStdout_trans w1 w2 w3 : sameStdout w1 w2 → sameStdout w2 w3 → sameStdout w1 w3.
Proof. unfold sameStdout. congruence. Qed.

(** With an authentication payload that is empty, or a resource that is
    not there, a pass writes nothing to the standard output: the
    admission, audit, authorization and scheduler payloads are never
    printed. *)
Theorem X8_only_the_authentication_payload_is_printed
    (constants : Constants) (json_Marshal : Payload → Result bytes)
    (serializer_Encode : Object → Result bytes) (w w' : World) (r : Step unit) :
  iteration constants json_Marshal serializer_Encode w = (r, w') →
  (∀ an, StructuredAuthenticationConfig (store w) = Ok an →
         StructuredAuthenticationConfigSpec.Config (TypedSpec an) = []) →
  stdout w' = stdout w.
Proof.
  intros H Hempty.
  destruct (iteration_reads_cases constants json_Marshal serializer_Encode w)
    as [(adm & aud & an & az & sch & Ha & Hb & Hc & Hd & He)|[Hs|[err Hs]]].
  - assert (respects sameStdout
              (forRange
                 (pods constants json_Marshal (TypedSpec adm) (TypedSpec aud)
                    (apiServerConfigs (Some (TypedSpec an)) (Some (TypedSpec az)))
                    (TypedSpec sch))
                 (renderPod serializer_Encode))) as Hpods.
    { apply forRange_pods_respects.
      - apply sameStdout_refl.
      - apply sameStdout_trans.
      - intros p _ w0 r0 w0' H0. by destruct (MkdirAll_rest _ _ _ _ _ H0) as [m ->].
      - intros p cf Hp Hcf. split_and!.
        + destruct (pods_elem _ _ _ _ _ _ _ _ _ Hp Hcf)
            as [[_ [[_ ->]|[[_ ->]|[[_ (c & [= <-] & Hne & _)]|[_ (c & _ & _ & ->)]]]]]
               |(_ & _ & ->)];
            try (apply respects_pure, sameStdout_refl).
          by destruct Hne; apply Hempty.
        + intros data w0 r0 w0' H0.
          by destruct (WriteFile_rest _ _ _ _ _ _ H0) as [->|[m ->]].
        + intros w0 r0 w0' H0.
          by destruct (Chown_rest _ _ _ _ _ _ H0) as [->|[m ->]]. }
    destruct (iteration_after_reads_cases _ _ _ _ _ _ _ _ _ _ _ Ha Hb Hc Hd He H)
      as [(err & _ & Hrun)|(_ & w1 & Hrun & _ & Hout)].
    + by apply Hpods in Hrun.
    + apply Hpods in Hrun. by rewrite Hout.
  - rewrite Hs in H. by injection H as <- <-.
  - rewrite Hs in H. by injection H as <- <-.
Qed.

Lemma X8_only_the_authentication_payload_is_printed_witness :
  fst (iteration talosConstants sampleMarshal sampleEncode (worldOf sampleStore)) = Next tt ∧
  stdout (snd (iteration talosConstants sampleMarshal sampleEncode (worldOf sampleStore)))
  = stdout (worldOf sampleStore).
Proof.
  split; [vm_compute; reflexivity|].
  apply (X8_only_the_authentication_payload_is_printed talosConstants sampleMarshal
           sampleEncode (worldOf sampleStore) _ _ (surjective_pairing _)).
  intros an [= <-]. reflexivity.
Defined.

(** ** What a complete pass leaves on disk *)

Lemma keepsNode_refl q n w : keepsNode q n w w.
Proof. by intros H. Qed.

Lemma keepsNode_trans q n w1 w2 w3 :
  keepsNode q n w1 w2 → keepsNode q n w2 w3 → keepsNode q n w1 w3.
Proof. unfold keepsNode. auto. Qed.

Lemma sameFS_keepsNode q n w w' : sameFS w w' → keepsNode q n w w'.
Proof. unfold keepsNode. intros H. by rewrite H. Qed.

Lemma MkdirAll_keepsNode q n dir perm : respects (keepsNode q n) (os.MkdirAll dir perm).
Proof.
  intros w r w' H Hl.
  destruct (MkdirAll_lookup dir perm w r w' q H) as [Heq|(Hn & _)].
  - by rewrite Heq.
  - by rewrite Hl in Hn.
Qed.

Lemma WriteFile_keepsNode q n name data perm :
  name ≠ q → respects (keepsNode q n) (os.WriteFile name data perm).
Proof.
  intros Hne w r w' H Hl.
  destruct (WriteFile_lookup name data perm w r w' q H) as [Heq|(Heq & _)].
  - by rewrite Heq.
  - by subst.
Qed.

Lemma Chown_keepsNode q n name uid gid :
  name ≠ q → respects (keepsNode q n) (os.Chown name uid gid).
Proof.
  intros Hne w r w' H Hl.
  destruct (Chown_lookup name uid gid w r w' q H) as [Heq|(Heq & _)].
  - by rewrite Heq.
  - by subst.
Qed.

(** A file that has been rendered holds the encoded document and belongs
    to the pod. *)
Lemma renderConfigFile_node serializer_Encode p cf w w' :
  renderConfigFile serializer_Encode p cf w = (Next tt, w') →
  ∃ obj buf perm,
    fst (f cf w) = Ok obj ∧ serializer_Encode obj = Ok buf ∧
    fs w' !! filepath.Join (directory p) (filename cf) = Some (File buf perm (uid p) (gid p)).
Proof.
  intros H. apply renderConfigFile_inv_Next in H as (obj & buf & w1 & w2 & Hf & He & Hw & Hc).
  apply WriteFile_Ok in Hw as (perm & uid0 & gid0 & Hl).
  exists obj, buf, perm. split_and!; [by rewrite Hf|done|].
  unfold os.Chown in Hc. rewrite Hl in Hc. injection Hc as <-. simpl.
  by rewrite lookup_insert_eq.
Qed.

(** Rendering a file leaves the nodes at all other paths alone. *)
Lemma renderConfigFile_keepsNode serializer_Encode p cf q n :
  respects sameFS (f cf) →
  filepath.Join (directory p) (filename cf) ≠ q →
  respects (keepsNode q n) (renderConfigFile serializer_Encode p cf).
Proof.
  intros Hf Hne. apply renderConfigFile_respects.
  - apply keepsNode_refl.
  - apply keepsNode_trans.
  - eapply respects_weaken; [apply sameFS_keepsNode|exact Hf].
  - intros data. by apply WriteFile_keepsNode.
  - by apply Chown_keepsNode.
Qed.

(** After the loop over a list of files with distinct names, each of
    them is rendered. *)
Lemma configs_rendered serializer_Encode p (cfs : list configFile) w w' :
  NoDup (filename <$> cfs) →
  (∀ cf, cf ∈ cfs → printsAtMost (f cf)) →
  forRange cfs (renderConfigFile serializer_Encode p) w = (Next tt, w') →
  ∀ cf, cf ∈ cfs → renderedIn serializer_Encode p cf w'.
Proof.
  revert w. induction cfs as [|cf0 cfs IH]; intros w Hnd Hpr Hrun cf Hcf.
  - by apply elem_of_nil in Hcf.
  - apply forRange_cons_inv_Next in Hrun as (w1 & Hhead & Hrest).
    rewrite fmap_cons in Hnd. apply NoDup_cons in Hnd as [Hnotin Hnd].
    apply elem_of_cons in Hcf as [->|Hcf].
    + apply renderConfigFile_node in Hhead as (obj & buf & perm & Hf & He & Hl).
      exists obj, buf, perm. split_and!; [|done|].
      * intros w0. rewrite <- Hf. apply printsAtMost_result, Hpr. by left.
      * assert (respects
                  (keepsNode (filepath.Join (directory p) (filename cf0))
                     (File buf perm (uid p) (gid p)))
                  (forRange cfs (renderConfigFile serializer_Encode p))) as Hkeep.
        { apply respects_forRange; [apply keepsNode_refl|apply keepsNode_trans|].
          intros cf1 Hcf1. apply renderConfigFile_keepsNode.
          - apply printsAtMost_sameFS, Hpr. by right.
          - intros Heq. apply Join_inj in Heq as [_ Heq].
            apply Hnotin. rewrite <- Heq. by apply list_elem_of_fmap_2. }
        by apply (Hkeep _ _ _ Hrest).
    + apply (IH w1); [done| |done|done]. intros cf1 Hcf1. apply Hpr. by right.
Qed.

Lemma apiServerPod_filenames_NoDup constants json_Marshal adm aud an az :
  NoDup (filename <$> configs (apiServerPod constants json_Marshal adm aud
                                 (apiServerConfigs an az))).
Proof.
  unfold apiServerConfigs.
  destruct an as [[l1]|], az as [[l2]|]; simpl;
    try destruct l1 as [|x1 l1]; try destruct l2 as [|x2 l2]; simpl;
    by apply (bool_decide_unpack _).
Qed.

Lemma renderedIn_keepsNode serializer_Encode p cf w w' :
  (∀ n, keepsNode (filepath.Join (directory p) (filename cf)) n w w') →
  renderedIn serializer_Encode p cf w → renderedIn serializer_Encode p cf w'.
Proof.
  intros Hk (obj & buf & perm & Hf & He & Hl).
  exists obj, buf, perm. split_and!; [done|done|]. by apply Hk.
Qed.

(** After the loop over the two pods, every file of the two lists is
    rendered. *)
Lemma pods_rendered constants json_Marshal serializer_Encode adm aud an az sch w w1 :
  forRange (pods constants json_Marshal adm aud (apiServerConfigs an az) sch)
    (renderPod serializer_Encode) w = (Next tt, w1) →
  ∀ p cf,
    p ∈ pods constants json_Marshal adm aud (apiServerConfigs an az) sch →
    cf ∈ configs p →
    renderedIn serializer_Encode p cf w1.
Proof.
  intros Hrun p cf Hp Hcf.
  assert (∀ p0 cf0,
            p0 ∈ pods constants json_Marshal adm aud (apiServerConfigs an az) sch →
            cf0 ∈ configs p0 → printsAtMost (f cf0)) as Hpr.
  { intros p0 cf0 Hp0 Hcf0. by eapply configs_printAtMost. }
  unfold pods in Hrun.
  apply forRange_cons_inv_Next in Hrun as (wa & Hapi & Hsched).
  apply forRange_cons_inv_Next in Hsched as (wb & Hsched & Hend).
  apply forRange_nil_inv in Hend as [_ ->].
  assert (apiServerPod constants json_Marshal adm aud (apiServerConfigs an az)
          ∈ pods constants json_Marshal adm aud (apiServerConfigs an az) sch) as Hapi_in
    by (unfold pods; by left).
  assert (schedulerPod constants sch
          ∈ pods constants json_Marshal adm aud (apiServerConfigs an az) sch) as Hsched_in
    by (unfold pods; right; by left).
  destruct (pods_elem _ _ _ _ _ _ _ _ _ Hp Hcf) as [[-> Hnames]|(-> & Hname & _)].
  - unfold renderPod in Hapi.
    apply bind_inv_Next in Hapi as ([] & w0 & _ & Hfiles).
    eapply configs_rendered in Hfiles;
      [|apply apiServerPod_filenames_NoDup|intros cf0 Hcf0; by apply (Hpr _ _ Hapi_in)|exact Hcf].
    eapply renderedIn_keepsNode; [|exact Hfiles].
    intros n. eapply (renderPod_respects serializer_Encode (keepsNode _ n)); [| | | |exact Hsched].
    + apply keepsNode_refl.
    + apply keepsNode_trans.
    + apply MkdirAll_keepsNode.
    + intros cf0 Hcf0. apply renderConfigFile_keepsNode.
      * apply printsAtMost_sameFS. by apply (Hpr _ _ Hsched_in).
      * intros Heq. apply Join_inj in Heq as [_ Heq].
        cbn [configs schedulerPod] in Hcf0.
        apply elem_of_cons in Hcf0 as [->|Hcf0]; [|by apply elem_of_nil in Hcf0].
        simpl in Heq.
        destruct Hnames as [[Hn _]|[[Hn _]|[[Hn _]|[Hn _]]]];
          rewrite Hn in Heq; discriminate Heq.
  - unfold renderPod in Hsched.
    apply bind_inv_Next in Hsched as ([] & w0 & _ & Hfiles).
    eapply configs_rendered in Hfiles; [exact Hfiles| | |exact Hcf].
    + simpl. by apply (bool_decide_unpack _).
    + intros cf0 Hcf0. by apply (Hpr _ _ Hsched_in).
Qed.

(** A pass that reaches the end of the body leaves every file of the two
    pods on disk: the file holds the encoding of the document its
    converter returns for the spec that was read, and it belongs to the
    user and group of its pod. *)
Theorem X9_complete_pass_leaves_every_file_rendered
    (constants : Constants) (json_Marshal : Payload → Result bytes)
    (serializer_Encode : Object → Result bytes) (w w' : World) :
  iteration constants json_Marshal serializer_Encode w = (Next tt, w') →
  ∃ admissionRes auditRes structuredAuthNRes structuredAuthZRes kubeSchedulerRes,
    AdmissionControlConfig (store w) = Ok admissionRes ∧
    AuditPolicyConfig (store w) = Ok auditRes ∧
    StructuredAuthenticationConfig (store w) = Ok structuredAuthNRes ∧
    StructuredAuthorizationConfig (store w) = Ok structuredAuthZRes ∧
    SchedulerConfig (store w) = Ok kubeSchedulerRes ∧
    ∀ p cf,
      p ∈ pods constants json_Marshal (TypedSpec admissionRes) (TypedSpec auditRes)
            (apiServerConfigs (Some (TypedSpec structuredAuthNRes))
               (Some (TypedSpec structuredAuthZRes)))
            (TypedSpec kubeSchedulerRes) →
      cf ∈ configs p →
      ∃ obj buf perm,
        (∀ w0, fst (f cf w0) = Ok obj) ∧
        serializer_Encode obj = Ok buf ∧
        fs w' !! filepath.Join (directory p) (filename cf)
        = Some (File buf perm (uid p) (gid p)).
Proof.
  intros H.
  apply iteration_inv_Next in H
    as (adm & aud & an & az & sch & w1 & Ha & Hb & Hc & Hd & He & Hpods & ->).
  exists adm, aud, an, az, sch. split_and!; [done|done|done|done|done|].
  intros p cf Hp Hcf.
  exact (pods_rendered _ _ _ _ _ _ _ _ _ _ Hpods p cf Hp Hcf).
Qed.

Lemma X9_complete_pass_leaves_every_file_rendered_witness :
  fst (iteration talosConstants sampleMarshal sampleEncode (worldOf storeWithOptional))
  = Next tt ∧
  ∃ obj buf perm,
    GetObjectKind obj
    = {| TypeMeta.Kind := "AuthenticationConfiguration";
         TypeMeta.APIVersion := "apiserver.config.k8s.io/v1beta1" |} ∧
    sampleEncode obj = Ok buf ∧
    fs (snd (iteration talosConstants sampleMarshal sampleEncode (worldOf storeWithOptional)))
      !! filepath.Join (KubernetesAPIServerConfigDir talosConstants)
           "authentication-config.yaml"
    = Some (File buf perm 65534 65534).
Proof.
  assert (fst (iteration talosConstants sampleMarshal sampleEncode
                 (worldOf storeWithOptional)) = Next tt) as H
    by (vm_compute; reflexivity).
  split; [exact H|].
  destruct (X9_complete_pass_leaves_every_file_rendered talosConstants sampleMarshal
              sampleEncode (worldOf storeWithOptional) _ (run_result _ _ _ H))
    as (adm & aud & an & az & sch & Ha & Hb & Hc & Hd & He & Hall).
  injection Ha as <-. injection Hb as <-. injection Hc as <-.
  injection Hd as <-. injection He as <-.
  destruct (Hall _ {| filename := "authentication-config.yaml";
                      f := structuredAuthenticationConfig
                             {| StructuredAuthenticationConfigSpec.Config :=
                                  [("jwt", VSlice [VMap [("issuer",
                                                         VMap [("url", VStr "https://issuer")])]])] |} |}
              ltac:(by left) ltac:(by do 2 right; left))
    as (obj & buf & perm & Hf & Henc & Hl).
  exists obj, buf, perm. split_and!; [|exact Henc|exact Hl].
  specialize (Hf (worldOf sampleStore)). cbn [f] in Hf.
  eapply structuredAuthenticationConfig_stamps. apply run_result. exact Hf.
Defined.

(** ** Directories *)

Lemma isDir_Some (m : gmap path node) (q : path) perm uid gid :
  m !! q = Some (Dir perm uid gid) → os.isDir m q = true.
Proof. intros H. unfold os.isDir. rewrite H. by destruct q. Qed.

Lemma isDir_inv (m : gmap path node) (q : path) :
  q ≠ [] → os.isDir m q = true → ∃ perm uid gid, m !! q = Some (Dir perm uid gid).
Proof.
  intros Hq. unfold os.isDir. destruct q as [|c q]; [done|].
  destruct (m !! (c :: q)) as [[perm uid gid|data perm uid gid]|]; [|done|done].
  intros _. by eexists _, _, _.
Qed.

Lemma keepsDir_refl q w : keepsDir q w w.
Proof. by intros H. Qed.

Lemma keepsDir_trans q w1 w2 w3 : keepsDir q w1 w2 → keepsDir q w2 w3 → keepsDir q w1 w3.
Proof. unfold keepsDir. auto. Qed.

Lemma sameFS_keepsDir q w w' : sameFS w w' → keepsDir q w w'.
Proof. unfold keepsDir. intros H. by rewrite H. Qed.

Lemma MkdirAll_keepsDir q dir perm : respects (keepsDir q) (os.MkdirAll dir perm).
Proof.
  intros w r w' H Hd. destruct q as [|c q]; [done|].
  apply isDir_inv in Hd as (dperm & duid & dgid & Hl); [|done].
  eapply isDir_Some. by eapply (MkdirAll_keepsNode _ _ _ _ _ _ _ H).
Qed.

Lemma WriteFile_keepsDir q name data perm : respects (keepsDir q) (os.WriteFile name data perm).
Proof.
  intros w r w' H Hd. destruct q as [|c q]; [done|].
  apply isDir_inv in Hd as (dperm & duid & dgid & Hl); [|done].
  destruct (WriteFile_lookup name data perm w r w' (c :: q) H)
    as [Heq|(_ & _ & [[Hn _]|(d0 & p0 & u0 & g0 & Hf & _)])].
  - eapply isDir_Some. by rewrite Heq.
  - by rewrite Hl in Hn.
  - by rewrite Hl in Hf.
Qed.

Lemma Chown_keepsDir q name uid gid : respects (keepsDir q) (os.Chown name uid gid).
Proof.
  intros w r w' H Hd. destruct q as [|c q]; [done|].
  apply isDir_inv in Hd as (dperm & duid & dgid & Hl); [|done].
  destruct (Chown_lookup name uid gid w r w' (c :: q) H)
    as [Heq|(_ & [(d0 & p0 & u0 & g0 & Hf & _)|(p0 & u0 & g0 & _ & Hnew)])].
  - eapply isDir_Some. by rewrite Heq.
  - by rewrite Hl in Hf.
  - by eapply isDir_Some.
Qed.

(** The loop over the pods never turns a directory into something else. *)
Lemma pods_keepsDir constants json_Marshal serializer_Encode adm aud an az sch q :
  respects (keepsDir q)
    (forRange (pods constants json_Marshal adm aud (apiServerConfigs an az) sch)
       (renderPod serializer_Encode)).
Proof.
  apply pods_respect.
  - apply keepsDir_refl.
  - apply keepsDir_trans.
  - intros a. eapply respects_weaken; [apply sameFS_keepsDir|apply Println_sameFS].
  - intros dir. apply MkdirAll_keepsDir.
  - intros name data. apply WriteFile_keepsDir.
  - intros name uid gid. apply Chown_keepsDir.
Qed.

Lemma mkdirFrom_Ok_isDir (rest parent : path) (perm : Z) (m m' : gmap path node) :
  os.mkdirFrom parent rest perm m = (Ok tt, m') →
  ∀ k, (1 ≤ k ≤ length rest)%nat → os.isDir m' (parent ++ take k rest) = true.
Proof.
  revert parent m. induction rest as [|c rest IH]; intros parent m; simpl.
  - intros _ k Hk. lia.
  - assert (∀ m1 dperm duid dgid,
              m1 !! (parent ++ [c]) = Some (Dir dperm duid dgid) →
              os.mkdirFrom (parent ++ [c]) rest perm m1 = (Ok tt, m') →
              ∀ k, (1 ≤ k ≤ S (length rest))%nat →
                   os.isDir m' (parent ++ take k (c :: rest)) = true) as Hstep.
    { intros m1 dperm duid dgid Hd Hrec k Hk.
      destruct k as [|[|k]]; [lia| |].
      - simpl. rewrite take_0.
        destruct (mkdirFrom_lookup rest (parent ++ [c]) perm m1 m' _ (parent ++ [c]) Hrec)
          as [Heq|(Hn & _)].
        + eapply isDir_Some. by rewrite Heq.
        + by rewrite Hd in Hn.
      - simpl. rewrite (cons_middle c parent), app_assoc.
        apply (IH _ _ Hrec (S k)). lia. }
    destruct (m !! (parent ++ [c])) as [[dperm duid dgid|data fperm fuid fgid]|] eqn:E.
    + intros H. by eapply Hstep.
    + discriminate.
    + intros H. eapply Hstep; [|exact H]. by rewrite lookup_insert_eq.
Qed.

Lemma MkdirAll_Ok_dirsExist (dir : path) (perm : Z) w w' :
  os.MkdirAll dir perm w = (Ok tt, w') → dirsExist dir w'.
Proof.
  unfold os.MkdirAll.
  destruct (os.mkdirFrom [] dir perm (fs w)) as [r0 m] eqn:E.
  intros [= -> <-] q [k Hk]. simpl.
  destruct q as [|c q]; [done|].
  pose proof (mkdirFrom_Ok_isDir dir [] perm _ _ E (length (c :: q))) as H.
  rewrite Hk, take_app_length in H. apply H.
  rewrite length_app. simpl. lia.
Qed.

Lemma mkdirFrom_noop (rest parent : path) (perm : Z) (m : gmap path node) :
  (∀ k, (1 ≤ k ≤ length rest)%nat → os.isDir m (parent ++ take k rest) = true) →
  os.mkdirFrom parent rest perm m = (Ok tt, m).
Proof.
  revert parent. induction rest as [|c rest IH]; intros parent Hd; simpl; [done|].
  pose proof (Hd 1%nat ltac:(simpl; lia)) as H1. simpl in H1. rewrite take_0 in H1.
  apply isDir_inv in H1 as (dperm & duid & dgid & ->); [|by destruct parent].
  apply IH. intros k Hk.
  specialize (Hd (S k) ltac:(simpl; lia)). simpl in Hd.
  by rewrite (cons_middle c parent), app_assoc in Hd.
Qed.

Lemma setFS_id w : setFS (fs w) w = w.
Proof. by destruct w. Qed.

Lemma MkdirAll_noop (dir : path) (perm : Z) w :
  dirsExist dir w → os.MkdirAll dir perm w = (Ok tt, w).
Proof.
  intros Hd. unfold os.MkdirAll. rewrite mkdirFrom_noop.
  - by rewrite setFS_id.
  - intros k _. apply Hd. apply prefix_take.
Qed.

(** ** A second pass over the same store *)

Lemma renderedIn_sameFS serializer_Encode p cf w w' :
  fs w' = fs w → renderedIn serializer_Encode p cf w → renderedIn serializer_Encode p cf w'.
Proof.
  intros Hfs (obj & buf & perm & Hf & He & Hl).
  exists obj, buf, perm. by rewrite Hfs.
Qed.

Lemma dirsExist_sameFS dir w w' : fs w' = fs w → dirsExist dir w → dirsExist dir w'.
Proof. intros Hfs Hd q Hq. rewrite Hfs. by apply Hd. Qed.

(** Rendering a file that is already rendered changes nothing on disk. *)
Lemma renderConfigFile_noop serializer_Encode p cf w :
  printsAtMost (f cf) →
  renderedIn serializer_Encode p cf w →
  ∃ w2,
    renderConfigFile serializer_Encode p cf w = (Next tt, w2) ∧
    fs w2 = fs w ∧ sameControl w w2.
Proof.
  intros [res Hm] (obj & buf & perm & Hf & He & Hl).
  destruct (Hm w) as [out Hout].
  specialize (Hf w). rewrite Hout in Hf. simpl in Hf. subst res.
  unfold renderConfigFile, mbind, Body_bind, orReturn, pure.
  rewrite Hout, He. unfold os.WriteFile. simpl. rewrite Hl.
  unfold os.Chown. simpl. rewrite lookup_insert_eq.
  eexists. split; [reflexivity|]. simpl. split; [|done].
  by rewrite insert_insert_eq, insert_id.
Qed.

Lemma configs_noop serializer_Encode p (cfs : list configFile) w :
  (∀ cf, cf ∈ cfs → printsAtMost (f cf) ∧ renderedIn serializer_Encode p cf w) →
  ∃ w2,
    forRange cfs (renderConfigFile serializer_Encode p) w = (Next tt, w2) ∧
    fs w2 = fs w ∧ sameControl w w2.
Proof.
  revert w. induction cfs as [|cf cfs IH]; intros w Hall; simpl.
  - exists w. split_and!; done.
  - destruct (Hall cf ltac:(by left)) as [Hpr Hr].
    destruct (renderConfigFile_noop serializer_Encode p cf w Hpr Hr)
      as (w1 & Hrun & Hfs & Hctl).
    destruct (IH w1) as (w2 & Hrest & Hfs2 & Hctl2).
    { intros cf0 Hcf0. destruct (Hall cf0 ltac:(by right)) as [Hpr0 Hr0].
      split; [done|]. by eapply renderedIn_sameFS. }
    exists w2. split_and!.
    + erewrite bind_Next; [exact Hrest|exact Hrun].
    + by rewrite Hfs2.
    + by eapply sameControl_trans.
Qed.

Lemma renderPod_noop serializer_Encode p w :
  dirsExist (directory p) w →
  (∀ cf, cf ∈ configs p → printsAtMost (f cf) ∧ renderedIn serializer_Encode p cf w) →
  ∃ w2,
    renderPod serializer_Encode p w = (Next tt, w2) ∧
    fs w2 = fs w ∧ sameControl w w2.
Proof.
  intros Hd Hall.
  destruct (configs_noop serializer_Encode p (configs p) w Hall) as (w2 & Hrun & Hfs & Hctl).
  exists w2. split_and!; [|done|done].
  unfold renderPod. erewrite bind_Next; [exact Hrun|].
  unfold orReturn. by rewrite MkdirAll_noop.
Qed.

(** After the loop over the two pods, both directories exist. *)
Lemma pods_dirsExist constants json_Marshal serializer_Encode adm aud an az sch w w1 :
  forRange (pods constants json_Marshal adm aud (apiServerConfigs an az) sch)
    (renderPod serializer_Encode) w = (Next tt, w1) →
  ∀ p, p ∈ pods constants json_Marshal adm aud (apiServerConfigs an az) sch →
       dirsExist (directory p) w1.
Proof.
  intros Hrun p Hp.
  assert (∀ ps w0 w2,
            (∀ q, q ∈ ps → q ∈ pods constants json_Marshal adm aud
                                 (apiServerConfigs an az) sch) →
            forRange ps (renderPod serializer_Encode) w0 = (Next tt, w2) →
            p ∈ ps → dirsExist (directory p) w2) as Hgen.
  { induction ps as [|p0 ps IH]; intros w0 w2 Hsub Hr Hin; [by apply elem_of_nil in Hin|].
    apply forRange_cons_inv_Next in Hr as (wa & Hhead & Hrest).
    apply elem_of_cons in Hin as [->|Hin].
    - unfold renderPod in Hhead.
      apply bind_inv_Next in Hhead as ([] & wm & Hm & Hfiles).
      apply orReturn_inv_Next in Hm. apply MkdirAll_Ok_dirsExist in Hm.
      intros q Hq.
      assert (keepsDir q wm wa) as H1.
      { eapply (respects_forRange (keepsDir q) (keepsDir_refl q) (keepsDir_trans q));
          [|exact Hfiles].
        intros cf Hcf. apply renderConfigFile_respects.
        - apply keepsDir_refl.
        - apply keepsDir_trans.
        - eapply respects_weaken; [apply sameFS_keepsDir|].
          eapply printsAtMost_sameFS, configs_printAtMost; [apply Hsub; by left|exact Hcf].
        - intros data. apply WriteFile_keepsDir.
        - apply Chown_keepsDir. }
      assert (keepsDir q wa w2) as H2.
      { eapply (forRange_pods_respects serializer_Encode (keepsDir q) ps
                  (keepsDir_refl q) (keepsDir_trans q)); [| |exact Hrest].
        - intros p1 _. apply MkdirAll_keepsDir.
        - intros p1 cf Hp1 Hcf. split_and!.
          + eapply respects_weaken; [apply sameFS_keepsDir|].
            eapply printsAtMost_sameFS, configs_printAtMost; [apply Hsub; by right|exact Hcf].
          + intros data. apply WriteFile_keepsDir.
          + apply Chown_keepsDir. }
      apply H2, H1. by apply Hm.
    - eapply IH; [|exact Hrest|exact Hin]. intros q Hq. apply Hsub. by right. }
  by eapply Hgen.
Qed.

(** A pass that reached the end of the body can be run again on the
    world it left, the store unchanged: the second pass reaches the end of
    the body as well and leaves the file system and the store exactly as
    the first one left them. *)
Theorem X10_second_pass_changes_nothing
    (constants : Constants) (json_Marshal : Payload → Result bytes)
    (serializer_Encode : Object → Result bytes) (w w' : World) :
  iteration constants json_Marshal serializer_Encode w = (Next tt, w') →
  ∃ w'',
    iteration constants json_Marshal serializer_Encode w' = (Next tt, w'') ∧
    fs w'' = fs w' ∧
    store w'' = store w'.
Proof.
  intros H.
  apply iteration_inv_Next in H
    as (adm & aud & an & az & sch & w1 & Ha & Hb & Hc & Hd & He & Hpods & ->).
  pose proof (pods_sameStore _ _ _ _ _ _ _ _ _ _ _ Hpods) as Hst.
  unfold sameStore in Hst.
  pose proof (pods_rendered _ _ _ _ _ _ _ _ _ _ Hpods) as Hrend.
  pose proof (pods_dirsExist _ _ _ _ _ _ _ _ _ _ Hpods) as Hdirs.
  set (s := {| ConfigStatusSpec.Ready := true;
               ConfigStatusSpec.Version :=
                 Version.String (Metadata_Version adm)
                 +:+ Version.String (Metadata_Version aud)
                 +:+ Version.String (Metadata_Version sch) |}).
  set (w' := setBackoffResets (S (backoffResets w1))
               (setStore (setConfigStatus (Some s) (store w1)) w1)).
  assert (fs w' = fs w1) as Hfs by done.
  set (ps := pods constants json_Marshal (TypedSpec adm) (TypedSpec aud)
               (apiServerConfigs (Some (TypedSpec an)) (Some (TypedSpec az)))
               (TypedSpec sch)) in *.
  assert (∀ p, p ∈ ps →
            dirsExist (directory p) w' ∧
            ∀ cf, cf ∈ configs p →
                  printsAtMost (f cf) ∧ renderedIn serializer_Encode p cf w') as Hall.
  { intros p Hp. split.
    - eapply dirsExist_sameFS; [exact Hfs|]. by apply Hdirs.
    - intros cf Hcf. split; [by eapply configs_printAtMost|].
      eapply renderedIn_sameFS; [exact Hfs|]. by apply Hrend. }
  destruct (Hall (apiServerPod constants json_Marshal (TypedSpec adm) (TypedSpec aud)
                    (apiServerConfigs (Some (TypedSpec an)) (Some (TypedSpec az))))
              ltac:(by left)) as [Hd1 Hr1].
  destruct (renderPod_noop serializer_Encode _ w' Hd1 Hr1) as (w2 & Hrun1 & Hfs2 & Hctl2).
  destruct (Hall (schedulerPod constants (TypedSpec sch)) ltac:(right; by left))
    as [Hd2 Hr2].
  destruct (renderPod_noop serializer_Encode (schedulerPod constants (TypedSpec sch)) w2)
    as (w3 & Hrun2 & Hfs3 & Hctl3).
  { by eapply dirsExist_sameFS. }
  { intros cf Hcf. destruct (Hr2 cf Hcf) as [Hpr Hr]. split; [done|].
    by eapply renderedIn_sameFS. }
  assert (forRange ps (renderPod serializer_Encode) w' = (Next tt, w3)) as Hloop.
  { unfold ps, pods. simpl. erewrite bind_Next; [|exact Hrun1].
    erewrite bind_Next; [|exact Hrun2]. reflexivity. }
  assert (store w3 = store w') as Hst3.
  { destruct Hctl2 as [Hs2 _], Hctl3 as [Hs3 _]. by rewrite Hs3, Hs2. }
  eexists. split_and!.
  - rewrite (iteration_after_reads constants json_Marshal serializer_Encode w'
               adm aud an az sch).
    + erewrite bind_Next; [|exact Hloop].
      unfold mbind, Body_bind, orReturn, WriterModify, ResetRestartBackoff. simpl.
      reflexivity.
    + unfold w'. simpl. by rewrite Hst.
    + unfold w'. simpl. by rewrite Hst.
    + unfold w'. simpl. by rewrite Hst.
    + unfold w'. simpl. by rewrite Hst.
    + unfold w'. simpl. by rewrite Hst.
  - simpl. by rewrite Hfs3, Hfs2.
  - simpl. rewrite Hst3. unfold w'. simpl. reflexivity.
Qed.

Lemma X10_second_pass_changes_nothing_witness :
  fst (iteration talosConstants sampleMarshal sampleEncode (worldOf storeWithOptional))
  = Next tt ∧
  ∃ w'',
    iteration talosConstants sampleMarshal sampleEncode
      (snd (iteration talosConstants sampleMarshal sampleEncode (worldOf storeWithOptional)))
    = (Next tt, w'') ∧
    fs w''
    = fs (snd (iteration talosConstants sampleMarshal sampleEncode
                 (worldOf storeWithOptional))) ∧
    store w''
    = store (snd (iteration talosConstants sampleMarshal sampleEncode
                    (worldOf storeWithOptional))).
Proof.
  assert (fst (iteration talosConstants sampleMarshal sampleEncode
                 (worldOf storeWithOptional)) = Next tt) as H
    by (vm_compute; reflexivity).
  split; [exact H|].
  exact (X10_second_pass_changes_nothing talosConstants sampleMarshal sampleEncode
           (worldOf storeWithOptional) _ (run_result _ _ _ H)).
Defined.

(** ** An error while the pods are rendered *)

Lemma bind_inv_Return {A B : Type} (m : Body A) (k : A → Body B) w err w' :
  (m ≫= k) w = (Return err, w') →
  m w = (Return err, w') ∨ ∃ a w1, m w = (Next a, w1) ∧ k a w1 = (Return err, w').
Proof.
  unfold mbind, Body_bind. destruct (m w) as [[a| |e] w1]; intros H.
  - right. by exists a, w1.
  - discriminate.
  - left. by injection H as -> ->.
Qed.

Lemma orReturn_inv_Return {A : Type} (call : IO A) wrap w err w' :
  orReturn call wrap w = (Return err, w') → ∃ cause, call w = (Err cause, w') ∧ err = wrap cause.
Proof.
  unfold orReturn. destruct (call w) as [[cause|x] w1]; [|discriminate].
  intros [= <- <-]. by exists cause.
Qed.

Lemma forRange_inv_Return {A : Type} (l : list A) (body : A → Body unit) w err w' :
  forRange l body w = (Return err, w') →
  ∃ before x after w1,
    l = before ++ x :: after ∧
    forRange before body w = (Next tt, w1) ∧
    body x w1 = (Return err, w').
Proof.
  revert w. induction l as [|x l IH]; intros w; simpl; [discriminate|].
  intros H. apply bind_inv_Return in H as [H|([] & w1 & Hx & H)].
  - exists [], x, l, w. by split_and!.
  - apply IH in H as (before & y & after & w2 & -> & Hb & Hy).
    exists (x :: before), y, after, w2. split_and!; [done| |done].
    simpl. by erewrite bind_Next.
Qed.

(** An error of [renderConfigFile] carries the name of the file and the
    name of the pod. *)
Lemma renderConfigFile_error serializer_Encode p cf w err w' :
  renderConfigFile serializer_Encode p cf w = (Return err, w') →
  ∃ format cause, err = Errorf format [filename cf; name p] cause.
Proof.
  unfold renderConfigFile. intros H.
  apply bind_inv_Return in H as [H|(obj & w1 & _ & H)];
    [apply orReturn_inv_Return in H as (cause & _ & ->); by eexists _, _|].
  apply bind_inv_Return in H as [H|(buf & w2 & _ & H)];
    [apply orReturn_inv_Return in H as (cause & _ & ->); by eexists _, _|].
  apply bind_inv_Return in H as [H|([] & w3 & _ & H)];
    [apply orReturn_inv_Return in H as (cause & _ & ->); by eexists _, _|].
  apply orReturn_inv_Return in H as (cause & _ & ->). by eexists _, _.
Qed.

Lemma renderPod_error serializer_Encode p w err w' :
  renderPod serializer_Encode p w = (Return err, w') →
  (∃ cause, err = Errorf "error creating config directory for %q: %w" [name p] cause) ∨
  (∃ cf format cause, cf ∈ configs p ∧ err = Errorf format [filename cf; name p] cause).
Proof.
  unfold renderPod. intros H.
  apply bind_inv_Return in H as [H|([] & w1 & _ & H)].
  - left. apply orReturn_inv_Return in H as (cause & _ & ->). by exists cause.
  - right. apply forRange_inv_Return in H as (before & cf & after & w2 & Hl & _ & Hcf).
    apply renderConfigFile_error in Hcf as (format & cause & ->).
    exists cf, format, cause. split; [|done]. rewrite Hl. apply elem_of_app. right. by left.
Qed.

(** The pods are rendered in order, and an error says where the loop
    stopped.  An error of the loop either names [kube-apiserver], and
    then nothing outside the paths of the API server pod has changed; or
    it names [kube-scheduler], and then every file of the API server pod
    is on disk, rendered. *)
Theorem X11_error_names_the_pod_that_failed
    (constants : Constants) (json_Marshal : Payload → Result bytes)
    (serializer_Encode : Object → Result bytes)
    adm aud an az sch (w w' : World) (err : error) :
  forRange (pods constants json_Marshal adm aud (apiServerConfigs an az) sch)
    (renderPod serializer_Encode) w = (Return err, w') →
  ((∃ format args cause, err = Errorf format (args ++ ["kube-apiserver"]) cause) ∧
   changesWithin
     (podPaths [apiServerPod constants json_Marshal adm aud (apiServerConfigs an az)])
     w w') ∨
  ((∃ format args cause, err = Errorf format (args ++ ["kube-scheduler"]) cause) ∧
   ∀ cf,
     cf ∈ configs (apiServerPod constants json_Marshal adm aud (apiServerConfigs an az)) →
     renderedIn serializer_Encode
       (apiServerPod constants json_Marshal adm aud (apiServerConfigs an az)) cf w').
Proof.
  intros H.
  assert (∀ p0 cf0,
            p0 ∈ pods constants json_Marshal adm aud (apiServerConfigs an az) sch →
            cf0 ∈ configs p0 → printsAtMost (f cf0)) as Hpr.
  { intros p0 cf0 Hp0 Hcf0. by eapply configs_printAtMost. }
  assert (apiServerPod constants json_Marshal adm aud (apiServerConfigs an az)
          ∈ pods constants json_Marshal adm aud (apiServerConfigs an az) sch) as Hapi_in
    by (unfold pods; by left).
  assert (schedulerPod constants sch
          ∈ pods constants json_Marshal adm aud (apiServerConfigs an az) sch) as Hsched_in
    by (unfold pods; right; by left).
  unfold pods in H. simpl in H.
  apply bind_inv_Return in H as [Hapi|([] & wa & Hapi & H)].
  - left. split.
    + apply renderPod_error in Hapi as [(cause & ->)|(cf & format & cause & _ & ->)].
      * by exists "error creating config directory for %q: %w", [], cause.
      * by exists format, [filename cf], cause.
    + eapply (pods_changesWithin serializer_Encode
                [apiServerPod constants json_Marshal adm aud (apiServerConfigs an az)]).
      * intros p cf Hp Hcf.
        apply elem_of_cons in Hp as [->|Hp]; [|by apply elem_of_nil in Hp].
        apply printsAtMost_sameFS. by apply (Hpr _ _ Hapi_in).
      * simpl. by apply bind_Return.
  - right. apply bind_inv_Return in H as [Hsched|([] & wb & _ & [=])]. split.
    + apply renderPod_error in Hsched as [(cause & ->)|(cf & format & cause & _ & ->)].
      * by exists "error creating config directory for %q: %w", [], cause.
      * by exists format, [filename cf], cause.
    + intros cf Hcf.
      unfold renderPod in Hapi.
      apply bind_inv_Next in Hapi as ([] & w0 & _ & Hfiles).
      eapply configs_rendered in Hfiles;
        [|apply apiServerPod_filenames_NoDup
         |intros cf0 Hcf0; by apply (Hpr _ _ Hapi_in)|exact Hcf].
      eapply renderedIn_keepsNode; [|exact Hfiles].
      intros n.
      eapply (renderPod_respects serializer_Encode (keepsNode _ n)); [| | | |exact Hsched].
      * apply keepsNode_refl.
      * apply keepsNode_trans.
      * apply MkdirAll_keepsNode.
      * intros cf0 Hcf0. apply renderConfigFile_keepsNode.
        -- apply printsAtMost_sameFS. by apply (Hpr _ _ Hsched_in).
        -- intros Heq. apply Join_inj in Heq as [_ Heq].
           cbn [configs schedulerPod] in Hcf0.
           apply elem_of_cons in Hcf0 as [->|Hcf0]; [|by apply elem_of_nil in Hcf0].
           simpl in Heq.
           destruct (pods_elem _ _ _ _ _ _ _ _ _ Hapi_in Hcf)
             as [[_ [[Hn _]|[[Hn _]|[[Hn _]|[Hn _]]]]]|(Hp & _)].
           ++ rewrite Hn in Heq. discriminate Heq.
           ++ rewrite Hn in Heq. discriminate Heq.
           ++ rewrite Hn in Heq. discriminate Heq.
           ++ rewrite Hn in Heq. discriminate Heq.
           ++ apply (f_equal name) in Hp. discriminate Hp.
Qed.

Lemma X11_error_names_the_pod_that_failed_witness :
  fst (forRange
         (pods talosConstants sampleMarshal
            {| AdmissionControlConfigSpec.Config := samplePlugins |}
            {| AuditPolicyConfigSpec.Config := sampleAuditPolicy |}
            (apiServerConfigs None None) schedulerWithBadParallelism)
         (renderPod sampleEncode) (worldOf sampleStore))
  = Return (Errorf "error generating configuration %q for %q: %w"
              ["scheduler-config.yaml"; "kube-scheduler"]
              (Errorf "error unmarshaling scheduler configuration: %w" []
                 (ErrConvert "cannot convert to int"))) ∧
  ∀ cf,
    cf ∈ configs (apiServerPod talosConstants sampleMarshal
                    {| AdmissionControlConfigSpec.Config := samplePlugins |}
                    {| AuditPolicyConfigSpec.Config := sampleAuditPolicy |}
                    (apiServerConfigs None None)) →
    renderedIn sampleEncode
      (apiServerPod talosConstants sampleMarshal
         {| AdmissionControlConfigSpec.Config := samplePlugins |}
         {| AuditPolicyConfigSpec.Config := sampleAuditPolicy |}
         (apiServerConfigs None None)) cf
      (snd (forRange
              (pods talosConstants sampleMarshal
                 {| AdmissionControlConfigSpec.Config := samplePlugins |}
                 {| AuditPolicyConfigSpec.Config := sampleAuditPolicy |}
                 (apiServerConfigs None None) schedulerWithBadParallelism)
              (renderPod sampleEncode) (worldOf sampleStore))).
Proof.
  assert (fst (forRange
                 (pods talosConstants sampleMarshal
                    {| AdmissionControlConfigSpec.Config := samplePlugins |}
                    {| AuditPolicyConfigSpec.Config := sampleAuditPolicy |}
                    (apiServerConfigs None None) schedulerWithBadParallelism)
                 (renderPod sampleEncode) (worldOf sampleStore))
          = Return (Errorf "error generating configuration %q for %q: %w"
                      ["scheduler-config.yaml"; "kube-scheduler"]
                      (Errorf "error unmarshaling scheduler configuration: %w" []
                         (ErrConvert "cannot convert to int")))) as H
    by (vm_compute; reflexivity).
  split; [exact H|].
  destruct (X11_error_names_the_pod_that_failed talosConstants sampleMarshal sampleEncode
              _ _ _ _ _ _ _ _ (run_result _ _ _ H))
    as [[(format & args & cause & He) _]|[_ Hr]].
  - injection He as _ He _.
    change ["scheduler-config.yaml"; "kube-scheduler"]
      with (["scheduler-config.yaml"] ++ ["kube-scheduler"]) in He.
    apply app_inj_tail in He as [_ He]. discriminate He.
  - exact Hr.
Defined.
